(** * The SQL lexer of dbms/src/Parsers/Lexer.cpp

    A shallow embedding of [quotedString] and [Lexer::nextToken], and the
    properties of the token stream they produce.

    The input buffer is a list of bytes; pointers into it are byte offsets
    ([Z]), so the buffer begins at offset 0 and ends at its length.  Pointer
    comparisons such as [pos < end - 2] are integer comparisons on offsets and
    are written exactly as in the source. *)

From Stdlib Require Import ZArith List Ascii String Bool Lia.
Import ListNotations.
Open Scope Z_scope.

(** ** Tokens *)

(** Modelled from the spec: the enumeration [TokenType] is declared in
    Parsers/Lexer.h, which is not part of the sources at hand.  The variants
    are those of section 3 of the specification; every name used by
    Lexer.cpp is among them. *)
Inductive TokenType : Type :=
| Whitespace | Comment
| BareWord | Number | StringLiteral | QuotedIdentifier
| OpeningRoundBracket | ClosingRoundBracket
| OpeningSquareBracket | ClosingSquareBracket
| Comma | Semicolon | Dot
| Asterisk | Plus | Minus | Division | Modulo
| Arrow | QuestionMark | Colon
| Equals | NotEquals | Less | Greater | LessOrEquals | GreaterOrEquals
| Concatenation
| EndOfStream
| Error
| ErrorMultilineCommentIsNotClosed
| ErrorSingleQuoteIsNotClosed
| ErrorDoubleQuoteIsNotClosed
| ErrorBackQuoteIsNotClosed
| ErrorSingleExclamationMark
| ErrorSinglePipeMark
| ErrorWordWithoutWhitespace.

Definition TokenType_eqb (a b : TokenType) : bool :=
  match a, b with
  | Whitespace, Whitespace | Comment, Comment | BareWord, BareWord
  | Number, Number | StringLiteral, StringLiteral
  | QuotedIdentifier, QuotedIdentifier
  | OpeningRoundBracket, OpeningRoundBracket
  | ClosingRoundBracket, ClosingRoundBracket
  | OpeningSquareBracket, OpeningSquareBracket
  | ClosingSquareBracket, ClosingSquareBracket
  | Comma, Comma | Semicolon, Semicolon | Dot, Dot
  | Asterisk, Asterisk | Plus, Plus | Minus, Minus | Division, Division
  | Modulo, Modulo | Arrow, Arrow | QuestionMark, QuestionMark
  | Colon, Colon | Equals, Equals | NotEquals, NotEquals | Less, Less
  | Greater, Greater | LessOrEquals, LessOrEquals
  | GreaterOrEquals, GreaterOrEquals | Concatenation, Concatenation
  | EndOfStream, EndOfStream | Error, Error
  | ErrorMultilineCommentIsNotClosed, ErrorMultilineCommentIsNotClosed
  | ErrorSingleQuoteIsNotClosed, ErrorSingleQuoteIsNotClosed
  | ErrorDoubleQuoteIsNotClosed, ErrorDoubleQuoteIsNotClosed
  | ErrorBackQuoteIsNotClosed, ErrorBackQuoteIsNotClosed
  | ErrorSingleExclamationMark, ErrorSingleExclamationMark
  | ErrorSinglePipeMark, ErrorSinglePipeMark
  | ErrorWordWithoutWhitespace, ErrorWordWithoutWhitespace => true
  | _, _ => false
  end.

(** Modelled from the spec: the struct [Token] of Parsers/Lexer.h (absent):
    a kind and the half-open byte range [begin, end) of the lexeme. *)
Record Token : Type := mkToken {
  type : TokenType;
  begin : Z;
  end_ : Z
}.

Definition size (t : Token) : Z := end_ t - begin t.

(** Modelled from the spec: the constructors of [Token] (Lexer.h, absent).
    Lexer.cpp builds a token from a kind, its begin and its end pointer; at
    two places the third argument is an integer and the specification reads it
    as the length of the token ([EndOfStream] has range [end, end),
    [ErrorWordWithoutWhitespace] has length 1). *)
Definition Token_range (ty : TokenType) (b e : Z) : Token :=
  {| type := ty; begin := b; end_ := e |}.

Definition Token_sized (ty : TokenType) (b : Z) (len : Z) : Token :=
  {| type := ty; begin := b; end_ := b + len |}.

(** ** Bytes and the buffer *)

Definition buffer : Type := list ascii.

Definition buf_end (buf : buffer) : Z := Z.of_nat (List.length buf).

(** [byte_at buf p] is [*p] for a pointer [p] at offset [p]. *)
Definition byte_at (buf : buffer) (p : Z) : ascii :=
  if p <? 0 then zero else nth (Z.to_nat p) buf zero.

Definition in_range (lo hi c : ascii) : bool :=
  ((N_of_ascii lo <=? N_of_ascii c) && (N_of_ascii c <=? N_of_ascii hi))%N.

(** Modelled from the spec: the character classes of Common/StringUtils.h
    (absent); all of them are ASCII-only. *)
Definition isAlphaASCII (c : ascii) : bool :=
  in_range "a" "z" c || in_range "A" "Z" c.

Definition isNumericASCII (c : ascii) : bool := in_range "0" "9" c.

Definition isAlphaNumericASCII (c : ascii) : bool :=
  isAlphaASCII c || isNumericASCII c.

Definition isWordCharASCII (c : ascii) : bool :=
  isAlphaNumericASCII c || (c =? "_")%char.

Definition isWhitespaceASCII (c : ascii) : bool :=
  (c =? " ")%char || (c =? "009")%char || (c =? "010")%char
  || (c =? "013")%char || (c =? "012")%char || (c =? "011")%char.

(** Modelled from the spec: [find_first_symbols<s1, s2, ...>(begin, end)] of
    common/find_first_symbols.h (absent): the first position in [begin, end)
    holding one of the symbols, and [end] when there is none. *)
Fixpoint find_first_from (symbols : list ascii) (rest : list ascii) (p : Z) : Z :=
  match rest with
  | [] => p
  | c :: rest' =>
      if existsb (Ascii.eqb c) symbols then p
      else find_first_from symbols rest' (p + 1)
  end.

Definition find_first_symbols (symbols : list ascii) (buf : buffer) (p : Z) : Z :=
  if p <? 0 then p
  else find_first_from symbols (skipn (Z.to_nat p) buf) p.

(** ** Loops of the form [while (pos < end && pred( *pos)) ++pos;]

    The loop advances [pos] at every iteration and stops at [end] at the
    latest, so [end - pos] iterations are enough; [skip_while_exit] below shows
    that the loop condition is false at the position returned. *)
Fixpoint skip_while_loop (fuel : nat) (pred : ascii -> bool) (buf : buffer) (p : Z) : Z :=
  match fuel with
  | O => p
  | S fuel' =>
      if (p <? buf_end buf) && pred (byte_at buf p)
      then skip_while_loop fuel' pred buf (p + 1)
      else p
  end.

Definition skip_while (pred : ascii -> bool) (buf : buffer) (p : Z) : Z :=
  skip_while_loop (Z.to_nat (buf_end buf - p)) pred buf p.

(** ** quotedString *)

(** What one pass through the body of [while (true)] does. *)
Inductive iteration : Type :=
| Return (t : Token) (p : Z)     (* return with the cursor at p *)
| Continue (p : Z)               (* continue with the cursor at p *)
| Unreachable.                   (* __builtin_unreachable() *)

Definition backslash : ascii := "\"%char.

Definition quotedString_body (quote : ascii) (success_token error_token : TokenType)
    (buf : buffer) (token_begin : Z) (p : Z) : iteration :=
  let e := buf_end buf in
  let p := find_first_symbols [quote; backslash] buf p in
  if p >=? e then Return (Token_range error_token token_begin e) p
  else if (byte_at buf p =? quote)%char then
    let p := p + 1 in
    if (p <? e) && (byte_at buf p =? quote)%char
    then Continue (p + 1)
    else Return (Token_range success_token token_begin p) p
  else if (byte_at buf p =? backslash)%char then
    let p := p + 1 in
    if p >=? e then Return (Token_range error_token token_begin e) p
    else Continue (p + 1)
  else Unreachable.

(** The loop itself; [None] stands for undefined behaviour (the unreachable
    mark, or an iteration count above the bound given by the caller). *)
Fixpoint quotedString_loop (fuel : nat) (quote : ascii)
    (success_token error_token : TokenType)
    (buf : buffer) (token_begin : Z) (p : Z) : option (Token * Z) :=
  match fuel with
  | O => None
  | S fuel' =>
      match quotedString_body quote success_token error_token buf token_begin p with
      | Return t p' => Some (t, p')
      | Continue p' =>
          quotedString_loop fuel' quote success_token error_token buf token_begin p'
      | Unreachable => None
      end
  end.

Definition quotedString (quote : ascii) (success_token error_token : TokenType)
    (buf : buffer) (p : Z) (token_begin : Z) : option (Token * Z) :=
  let p := p + 1 in
  quotedString_loop (S (Z.to_nat (buf_end buf - p))) quote success_token error_token
    buf token_begin p.

(** ** Lexer *)

(** The class [Lexer] keeps the bounds [begin] and [end] of the buffer and
    the cursor [pos]; here the buffer itself stands for its bounds. *)
Record Lexer : Type := mkLexer {
  input : buffer;
  pos : Z
}.

Definition Lexer_begin (lx : Lexer) : Z := 0.
Definition Lexer_end (lx : Lexer) : Z := buf_end (input lx).

(** The constructor [Lexer(begin, end)]: the cursor starts at [begin]. *)
Definition Lexer_new (s : string) : Lexer :=
  {| input := list_ascii_of_string s; pos := 0 |}.

(** The lambda [commentUntilEndOfLine]: the cursor moves to the next newline
    (or to the end) and the comment ends there.  The call in the source,
    [find_first_symbols('\n', end)], names the symbol and the end only; the
    scan starts at the cursor, as the specification has it. *)
Definition commentUntilEndOfLine (buf : buffer) (token_begin : Z) (p : Z) : Token * Z :=
  let p := find_first_symbols ["010"%char] buf p in
  (Token_range Comment token_begin p, p).

(** The loop that looks for the end of a multiline comment. *)
Fixpoint multilineComment_loop (fuel : nat) (buf : buffer) (token_begin : Z) (p : Z)
    : option (Token * Z) :=
  match fuel with
  | O => None
  | S fuel' =>
      if p <=? buf_end buf - 2 then
        if (byte_at buf p =? "*")%char && (byte_at buf (p + 1) =? "/")%char
        then Some (Token_range Comment token_begin (p + 2), p + 2)
        else multilineComment_loop fuel' buf token_begin (p + 1)
      else
        Some (Token_range ErrorMultilineCommentIsNotClosed token_begin (buf_end buf), p)
  end.

Definition multilineComment (buf : buffer) (token_begin : Z) (p : Z) : option (Token * Z) :=
  multilineComment_loop (S (Z.to_nat (buf_end buf - p))) buf token_begin p.

(** The pieces of a number, in the order of the source. *)

(** [/// 0x, 0b] *)
Definition radix_prefix (buf : buffer) (p : Z) : Z :=
  if (p <? buf_end buf - 2) && (byte_at buf p =? "0")%char
     && ((byte_at buf (p + 1) =? "x")%char || (byte_at buf (p + 1) =? "b")%char)
  then p + 2 else p.

(** [/// decimal point] *)
Definition decimal_point (buf : buffer) (p : Z) : Z :=
  if (p <? buf_end buf) && (byte_at buf p =? ".")%char
  then skip_while isNumericASCII buf (p + 1)
  else p.

(** [/// sign of exponent] *)
Definition sign_of_exponent (buf : buffer) (p : Z) : Z :=
  if (p <? buf_end buf - 1)
     && ((byte_at buf p =? "-")%char || (byte_at buf p =? "+")%char)
  then p + 1 else p.

(** [/// exponentation], after the digits of a number that starts with a digit. *)
Definition exponentation (buf : buffer) (p : Z) : Z :=
  if (p + 1 <? buf_end buf)
     && ((byte_at buf p =? "e")%char || (byte_at buf p =? "p")%char)
  then skip_while isNumericASCII buf (sign_of_exponent buf (p + 1))
  else p.

(** [/// exponentation], after the digits of a number that starts with a dot. *)
Definition exponentation_after_dot (buf : buffer) (p : Z) : Z :=
  if (p <? buf_end buf - 1)
     && ((byte_at buf p =? "e")%char || (byte_at buf p =? "p")%char)
  then skip_while isNumericASCII buf (sign_of_exponent buf (p + 1))
  else p.

(** The position reached by [case '0'...'9'] before the exponent. *)
Definition mantissa (buf : buffer) (p : Z) : Z :=
  decimal_point buf (skip_while isNumericASCII buf (radix_prefix buf p)).

(** [Lexer::nextToken].  The result is the token and the cursor after the
    call; [None] is undefined behaviour. *)
Definition nextToken_at (buf : buffer) (p : Z) : option (Token * Z) :=
  let e := buf_end buf in
  if p >=? e then Some (Token_sized EndOfStream e 0, p)
  else
    let token_begin := p in
    let c := byte_at buf p in
    if (c =? " ")%char || (c =? "009")%char || (c =? "010")%char
       || (c =? "013")%char || (c =? "012")%char || (c =? "011")%char
    then
      let p := skip_while isWhitespaceASCII buf (p + 1) in
      Some (Token_range Whitespace token_begin p, p)
    else if in_range "a" "z" c || in_range "A" "Z" c || (c =? "_")%char
    then
      if (p >? 0) && isWordCharASCII (byte_at buf (p - 1))
      then Some (Token_sized ErrorWordWithoutWhitespace p 1, p)
      else
        let p := skip_while isWordCharASCII buf (p + 1) in
        Some (Token_range BareWord token_begin p, p)
    else if in_range "0" "9" c
    then
      let p := exponentation buf (mantissa buf p) in
      Some (Token_range Number token_begin p, p)
    else if (c =? "'")%char
    then quotedString "'" StringLiteral ErrorSingleQuoteIsNotClosed buf p token_begin
    else if (c =? "034")%char
    then quotedString "034" QuotedIdentifier ErrorDoubleQuoteIsNotClosed buf p token_begin
    else if (c =? "`")%char
    then quotedString "`" QuotedIdentifier ErrorBackQuoteIsNotClosed buf p token_begin
    else if (c =? "(")%char
    then Some (Token_range OpeningRoundBracket token_begin (p + 1), p + 1)
    else if (c =? ")")%char
    then Some (Token_range ClosingRoundBracket token_begin (p + 1), p + 1)
    else if (c =? "[")%char
    then Some (Token_range OpeningSquareBracket token_begin (p + 1), p + 1)
    else if (c =? "]")%char
    then Some (Token_range ClosingSquareBracket token_begin (p + 1), p + 1)
    else if (c =? ",")%char
    then Some (Token_range Comma token_begin (p + 1), p + 1)
    else if (c =? ";")%char
    then Some (Token_range Semicolon token_begin (p + 1), p + 1)
    else if (c =? ".")%char
    then
      if (p >? 0)
         && ((byte_at buf (p - 1) =? ")")%char || (byte_at buf (p - 1) =? "]")%char
             || isAlphaNumericASCII (byte_at buf (p - 1)))
      then Some (Token_range Dot token_begin (p + 1), p + 1)
      else
        let p := exponentation_after_dot buf (skip_while isNumericASCII buf (p + 1)) in
        Some (Token_range Number token_begin p, p)
    else if (c =? "+")%char
    then Some (Token_range Plus token_begin (p + 1), p + 1)
    else if (c =? "-")%char
    then
      let p := p + 1 in
      if (p <? e) && (byte_at buf p =? ">")%char
      then Some (Token_range Arrow token_begin (p + 1), p + 1)
      else if (p <? e) && (byte_at buf p =? "-")%char
      then Some (commentUntilEndOfLine buf token_begin (p + 1))
      else Some (Token_range Minus token_begin p, p)
    else if (c =? "*")%char
    then Some (Token_range Asterisk token_begin (p + 1), p + 1)
    else if (c =? "/")%char
    then
      let p := p + 1 in
      if (p <? e) && ((byte_at buf p =? "/")%char || (byte_at buf p =? "*")%char)
      then
        if (byte_at buf p =? "/")%char
        then Some (commentUntilEndOfLine buf token_begin (p + 1))
        else multilineComment buf token_begin (p + 1)
      else Some (Token_range Division token_begin p, p)
    else if (c =? "%")%char
    then Some (Token_range Modulo token_begin (p + 1), p + 1)
    else if (c =? "=")%char
    then
      let p := p + 1 in
      let p := if (p <? e) && (byte_at buf p =? "=")%char then p + 1 else p in
      Some (Token_range Equals token_begin p, p)
    else if (c =? "!")%char
    then
      let p := p + 1 in
      if (p <? e) && (byte_at buf p =? "=")%char
      then Some (Token_range NotEquals token_begin (p + 1), p + 1)
      else Some (Token_range ErrorSingleExclamationMark token_begin p, p)
    else if (c =? "<")%char
    then
      let p := p + 1 in
      if (p <? e) && (byte_at buf p =? "=")%char
      then Some (Token_range LessOrEquals token_begin (p + 1), p + 1)
      else if (p <? e) && (byte_at buf p =? ">")%char
      then Some (Token_range NotEquals token_begin (p + 1), p + 1)
      else Some (Token_range Less token_begin p, p)
    else if (c =? ">")%char
    then
      let p := p + 1 in
      if (p <? e) && (byte_at buf p =? "=")%char
      then Some (Token_range GreaterOrEquals token_begin (p + 1), p + 1)
      else Some (Token_range Greater token_begin p, p)
    else if (c =? "?")%char
    then Some (Token_range QuestionMark token_begin (p + 1), p + 1)
    else if (c =? ":")%char
    then Some (Token_range Colon token_begin (p + 1), p + 1)
    else if (c =? "|")%char
    then
      let p := p + 1 in
      if (p <? e) && (byte_at buf p =? "|")%char
      then Some (Token_range Concatenation token_begin (p + 1), p + 1)
      else Some (Token_range ErrorSinglePipeMark token_begin p, p)
    else Some (Token_range Error token_begin (p + 1), p + 1).

Definition nextToken (lx : Lexer) : option (Token * Lexer) :=
  match nextToken_at (input lx) (pos lx) with
  | Some (t, p) => Some (t, {| input := input lx; pos := p |})
  | None => None
  end.

(** ** The caller's loop: tokens until [EndOfStream], at most [n] of them. *)
Fixpoint tokens (n : nat) (lx : Lexer) : list Token :=
  match n with
  | O => []
  | S n' =>
      match nextToken lx with
      | None => []
      | Some (t, lx') =>
          t :: (if TokenType_eqb (type t) EndOfStream then [] else tokens n' lx')
      end
  end.

Definition newline : string := String "010"%char EmptyString.

(** * The vocabulary of the properties *)

(** What one iteration returns, for a cursor inside the buffer. *)
Definition iteration_ok (success_token error_token : TokenType) (buf : buffer)
    (token_begin p : Z) (it : iteration) : Prop :=
  match it with
  | Return t p' =>
      begin t = token_begin
      /\ ((type t = success_token /\ end_ t = p' /\ p < p' <= buf_end buf)
          \/ (type t = error_token /\ end_ t = buf_end buf /\ p' = buf_end buf))
  | Continue p' => p + 2 <= p' <= buf_end buf
  | Unreachable => False
  end.

(** What a call at cursor [p] returns, kind by kind: the range of the token
    and the cursor [p'] after the call. *)
Definition token_shape (buf : buffer) (p : Z) (t : Token) (p' : Z) : Prop :=
  match type t with
  | EndOfStream =>
      buf_end buf <= p /\ begin t = buf_end buf /\ end_ t = buf_end buf /\ p' = p
  | ErrorWordWithoutWhitespace =>
      p < buf_end buf /\ begin t = p /\ end_ t = p + 1 /\ p' = p
  | ErrorMultilineCommentIsNotClosed =>
      p < buf_end buf /\ begin t = p /\ end_ t = buf_end buf
      /\ p + 2 <= p' /\ (p' = buf_end buf \/ p' = buf_end buf - 1)
  | ErrorSingleQuoteIsNotClosed | ErrorDoubleQuoteIsNotClosed
  | ErrorBackQuoteIsNotClosed =>
      p < buf_end buf /\ begin t = p /\ end_ t = buf_end buf /\ p' = buf_end buf
  | Error | ErrorSingleExclamationMark | ErrorSinglePipeMark =>
      p < buf_end buf /\ begin t = p /\ end_ t = p + 1 /\ p' = p + 1
  | _ =>
      p < buf_end buf /\ begin t = p /\ end_ t = p' /\ p < p' <= buf_end buf
  end.

(** Where the exponent of a number ends, given the position [m] of its
    ['e'] or ['p'] and the end [q] of the token: the sign after the letter is
    part of the token when a byte follows the sign, and the token then runs
    over the decimal digits up to the first byte that is not one. *)
Definition exponent_consumed (buf : buffer) (m q : Z) : Prop :=
  let signed :=
    m + 2 < buf_end buf
    /\ (byte_at buf (m + 1) = "-"%char \/ byte_at buf (m + 1) = "+"%char) in
  exists s,
    (signed -> s = m + 2) /\ (~ signed -> s = m + 1)
    /\ s <= q <= buf_end buf
    /\ (forall i, s <= i < q -> isNumericASCII (byte_at buf i) = true)
    /\ (q < buf_end buf -> isNumericASCII (byte_at buf q) = false).

(** The radix prefix as the specification words it: the prefix is consumed
    as soon as the byte after ['0'] exists and is ['x'] or ['b']. *)
Definition radix_prefix_claim : Prop :=
  forall (buf : buffer) (p : Z),
    0 <= p -> p + 1 < buf_end buf ->
    byte_at buf p = "0"%char ->
    byte_at buf (p + 1) = "x"%char \/ byte_at buf (p + 1) = "b"%char ->
    exists q,
      nextToken (mkLexer buf p) = Some (Token_range Number p q, mkLexer buf q)
      /\ p + 2 <= q.

(** The sign of the exponent as the specification words it: after the ['e']
    or ['p'] a sign is consumed when present. *)
Definition exponent_sign_claim : Prop :=
  forall (buf : buffer) (p : Z),
    0 <= p < buf_end buf ->
    isNumericASCII (byte_at buf p) = true ->
    let m := mantissa buf p in
    m + 1 < buf_end buf ->
    byte_at buf m = "e"%char \/ byte_at buf m = "p"%char ->
    byte_at buf (m + 1) = "-"%char \/ byte_at buf (m + 1) = "+"%char ->
    exists q,
      nextToken (mkLexer buf p) = Some (Token_range Number p q, mkLexer buf q)
      /\ m + 2 <= q.

Definition input_1a : buffer := list_ascii_of_string "1a".
Definition input_unclosed : buffer := list_ascii_of_string "/*a".

(** The ranges of a token sequence for a buffer that ends at [e]: every token
    begins where the one before it ended, the first at [p], and the last one
    is an [EndOfStream] with the empty range [e, e). *)
Fixpoint covers_from (e : Z) (p : Z) (ts : list Token) : Prop :=
  match ts with
  | [] => False
  | t :: ts' =>
      match ts' with
      | [] => type t = EndOfStream /\ p = e /\ begin t = e /\ end_ t = e
      | _ :: _ =>
          type t <> EndOfStream /\ begin t = p /\ p <= end_ t
          /\ covers_from e (end_ t) ts'
      end
  end.

(** The bytes of the buffer in the range of a token. *)
Definition lexeme (buf : buffer) (t : Token) : list ascii :=
  firstn (Z.to_nat (size t)) (skipn (Z.to_nat (begin t)) buf).

(** The labels [case 'a'...'z': case 'A'...'Z': case '_':]. *)
Definition word_start (c : ascii) : bool :=
  in_range "a" "z" c || in_range "A" "Z" c || (c =? "_")%char.

(** The bytes that have a case label of their own in the switch. *)
Definition has_case_label (c : ascii) : bool :=
  isWhitespaceASCII c || word_start c || in_range "0" "9" c
  || (c =? "'")%char || (c =? "034")%char || (c =? "`")%char
  || (c =? "(")%char || (c =? ")")%char || (c =? "[")%char || (c =? "]")%char
  || (c =? ",")%char || (c =? ";")%char || (c =? ".")%char || (c =? "+")%char
  || (c =? "-")%char || (c =? "*")%char || (c =? "/")%char || (c =? "%")%char
  || (c =? "=")%char || (c =? "!")%char || (c =? "<")%char || (c =? ">")%char
  || (c =? "?")%char || (c =? ":")%char || (c =? "|")%char.

(** The bytes at which a token of a given kind can begin. *)
Definition first_byte (ty : TokenType) (c : ascii) : bool :=
  match ty with
  | Whitespace => isWhitespaceASCII c
  | Comment => (c =? "-")%char || (c =? "/")%char
  | BareWord | ErrorWordWithoutWhitespace => word_start c
  | Number => in_range "0" "9" c || (c =? ".")%char
  | StringLiteral | ErrorSingleQuoteIsNotClosed => (c =? "'")%char
  | QuotedIdentifier => (c =? "034")%char || (c =? "`")%char
  | ErrorDoubleQuoteIsNotClosed => (c =? "034")%char
  | ErrorBackQuoteIsNotClosed => (c =? "`")%char
  | OpeningRoundBracket => (c =? "(")%char
  | ClosingRoundBracket => (c =? ")")%char
  | OpeningSquareBracket => (c =? "[")%char
  | ClosingSquareBracket => (c =? "]")%char
  | Comma => (c =? ",")%char
  | Semicolon => (c =? ";")%char
  | Dot => (c =? ".")%char
  | Asterisk => (c =? "*")%char
  | Plus => (c =? "+")%char
  | Minus | Arrow => (c =? "-")%char
  | Division | ErrorMultilineCommentIsNotClosed => (c =? "/")%char
  | Modulo => (c =? "%")%char
  | QuestionMark => (c =? "?")%char
  | Colon => (c =? ":")%char
  | Equals => (c =? "=")%char
  | NotEquals => (c =? "!")%char || (c =? "<")%char
  | Less | LessOrEquals => (c =? "<")%char
  | Greater | GreaterOrEquals => (c =? ">")%char
  | Concatenation | ErrorSinglePipeMark => (c =? "|")%char
  | ErrorSingleExclamationMark => (c =? "!")%char
  | Error => negb (has_case_label c)
  | EndOfStream => false
  end.

(** The kinds [quotedString] is instantiated with for each quote byte. *)
Definition quote_success (quote : ascii) : TokenType :=
  if (quote =? "'")%char then StringLiteral else QuotedIdentifier.

Definition quote_error (quote : ascii) : TokenType :=
  if (quote =? "'")%char then ErrorSingleQuoteIsNotClosed
  else if (quote =? "034")%char then ErrorDoubleQuoteIsNotClosed
  else ErrorBackQuoteIsNotClosed.

Definition is_quote (c : ascii) : bool :=
  (c =? "'")%char || (c =? "034")%char || (c =? "`")%char.

(** The two bytes that close a multiline comment stand at [i] and [i + 1]. *)
Definition close_at (buf : buffer) (i : Z) : Prop :=
  byte_at buf i = "*"%char /\ byte_at buf (i + 1) = "/"%char.

(** Where the digits of a number stop, no digit follows. *)
Definition no_digit_at (buf : buffer) (q : Z) : Prop :=
  q < buf_end buf -> isNumericASCII (byte_at buf q) = false.

(** The texts of the kinds whose spelling is fixed: punctuation, operators
    and the two error kinds for a lone [!] or [|]. *)
Definition spellings (ty : TokenType) : list string :=
  match ty with
  | OpeningRoundBracket => ["("%string]
  | ClosingRoundBracket => [")"%string]
  | OpeningSquareBracket => ["["%string]
  | ClosingSquareBracket => ["]"%string]
  | Comma => [","%string]
  | Semicolon => [";"%string]
  | Dot => ["."%string]
  | Asterisk => ["*"%string]
  | Plus => ["+"%string]
  | Minus => ["-"%string]
  | Division => ["/"%string]
  | Modulo => ["%"%string]
  | Arrow => ["->"%string]
  | QuestionMark => ["?"%string]
  | Colon => [":"%string]
  | Equals => ["="%string; "=="%string]
  | NotEquals => ["!="%string; "<>"%string]
  | Less => ["<"%string]
  | Greater => [">"%string]
  | LessOrEquals => ["<="%string]
  | GreaterOrEquals => [">="%string]
  | Concatenation => ["||"%string]
  | ErrorSingleExclamationMark => ["!"%string]
  | ErrorSinglePipeMark => ["|"%string]
  | _ => []
  end.

(** * Properties *)

(** ** Reading the buffer *)

Lemma buf_end_nonneg (buf : buffer) : 0 <= buf_end buf.
Proof. unfold buf_end. lia. Qed.

Lemma byte_at_cons (c : ascii) (buf : buffer) (p : Z) :
  0 <= p -> byte_at (c :: buf) (p + 1) = byte_at buf p.
Proof.
  intros Hp. unfold byte_at.
  destruct (Z.ltb_spec (p + 1) 0); [lia|].
  destruct (Z.ltb_spec p 0); [lia|].
  replace (Z.to_nat (p + 1)) with (S (Z.to_nat p)) by lia.
  reflexivity.
Qed.

Lemma skipn_cons_nth (c : ascii) (rest : list ascii) :
  forall (n : nat) (buf : buffer),
    skipn n buf = c :: rest ->
    nth n buf zero = c /\ (n < List.length buf)%nat /\ skipn (S n) buf = rest.
Proof.
  induction n as [|n IH]; intros [|b buf] Hs; simpl in *; try discriminate.
  - inversion Hs; subst. repeat split; try reflexivity; lia.
  - destruct (IH buf Hs) as (A & B & C).
    repeat split; try assumption; lia.
Qed.

Lemma byte_at_skipn (buf : buffer) (p : Z) (c : ascii) (rest : list ascii) :
  0 <= p -> skipn (Z.to_nat p) buf = c :: rest ->
  byte_at buf p = c /\ p < buf_end buf /\ skipn (Z.to_nat (p + 1)) buf = rest.
Proof.
  intros Hp Hs. unfold byte_at, buf_end.
  destruct (Z.ltb_spec p 0); [lia|].
  replace (Z.to_nat (p + 1)) with (S (Z.to_nat p)) by lia.
  destruct (skipn_cons_nth c rest _ _ Hs) as (A & B & C).
  repeat split; try assumption; lia.
Qed.

Lemma skipn_nil_end (buf : buffer) (p : Z) :
  0 <= p -> skipn (Z.to_nat p) buf = [] -> buf_end buf <= p.
Proof.
  intros Hp Hs. unfold buf_end.
  assert (H : List.length (skipn (Z.to_nat p) buf) = 0%nat) by (rewrite Hs; reflexivity).
  rewrite length_skipn in H. lia.
Qed.

(** ** The scanning loops *)

Section Scanning.

Variable pred : ascii -> bool.
Variable buf : buffer.

Lemma skip_while_loop_spec :
  forall (fuel : nat) (p : Z),
    (Z.to_nat (buf_end buf - p) <= fuel)%nat ->
    let r := skip_while_loop fuel pred buf p in
    p <= r /\ (r <= buf_end buf \/ r = p)
    /\ (forall i, p <= i < r -> pred (byte_at buf i) = true)
    /\ (r <? buf_end buf) && pred (byte_at buf r) = false.
Proof.
  induction fuel as [|fuel IH]; intros p Hfuel; simpl.
  - repeat split; lia.
  - destruct ((p <? buf_end buf) && pred (byte_at buf p)) eqn:Hc.
    + apply andb_true_iff in Hc. destruct Hc as [Hlt Hpred].
      apply Z.ltb_lt in Hlt.
      destruct (IH (p + 1) ltac:(lia)) as (A & B & C & D).
      repeat split; try lia; try assumption.
      intros i Hi. destruct (Z.eq_dec i p) as [->|Hne]; [assumption|].
      apply C. lia.
    + repeat split; try lia. assumption.
Qed.

Let spec_at (p : Z) := skip_while_loop_spec (Z.to_nat (buf_end buf - p)) p (le_n _).

(** The loop condition is false where [skip_while] stops: the bound on the
    number of iterations is never what ends the loop. *)
Lemma skip_while_exit (p : Z) :
  let r := skip_while pred buf p in
  (r <? buf_end buf) && pred (byte_at buf r) = false.
Proof. apply (spec_at p). Qed.

Lemma skip_while_ge (p : Z) : p <= skip_while pred buf p.
Proof. apply (spec_at p). Qed.

Lemma skip_while_le (p : Z) :
  p <= buf_end buf -> skip_while pred buf p <= buf_end buf.
Proof.
  intros Hp. destruct (spec_at p) as (_ & [H|H] & _); unfold skip_while; lia.
Qed.

Lemma skip_while_all (p i : Z) :
  p <= i < skip_while pred buf p -> pred (byte_at buf i) = true.
Proof. apply (spec_at p). Qed.

Lemma skip_while_step (p : Z) :
  p < buf_end buf -> pred (byte_at buf p) = true ->
  skip_while pred buf p = skip_while pred buf (p + 1).
Proof.
  intros Hp Hpred. unfold skip_while.
  replace (Z.to_nat (buf_end buf - p)) with (S (Z.to_nat (buf_end buf - (p + 1)))) by lia.
  simpl. rewrite Hpred.
  destruct (Z.ltb_spec p (buf_end buf)); [reflexivity|lia].
Qed.

Lemma skip_while_stop (p : Z) :
  (p <? buf_end buf) && pred (byte_at buf p) = false ->
  skip_while pred buf p = p.
Proof.
  intros Hc. unfold skip_while.
  destruct (Z.to_nat (buf_end buf - p)); simpl; [reflexivity|].
  rewrite Hc. reflexivity.
Qed.

End Scanning.

(** ** find_first_symbols *)

Lemma find_first_from_spec (symbols : list ascii) (buf : buffer) :
  forall (rest : list ascii) (p : Z),
    0 <= p -> skipn (Z.to_nat p) buf = rest ->
    let r := find_first_from symbols rest p in
    p <= r <= Z.max p (buf_end buf)
    /\ (forall i, p <= i < r -> existsb (Ascii.eqb (byte_at buf i)) symbols = false)
    /\ (r < buf_end buf -> existsb (Ascii.eqb (byte_at buf r)) symbols = true)
    /\ (p <= buf_end buf ->
        r = buf_end buf \/ existsb (Ascii.eqb (byte_at buf r)) symbols = true).
Proof.
  induction rest as [|c rest IH]; intros p Hp Hs; simpl.
  - pose proof (skipn_nil_end buf p Hp Hs).
    repeat split; lia.
  - destruct (byte_at_skipn buf p c rest Hp Hs) as (Hc & Hlt & Hs').
    destruct (existsb (Ascii.eqb c) symbols) eqn:Hex.
    + repeat split; try lia; intros; rewrite ?Hc; auto.
    + destruct (IH (p + 1) ltac:(lia) Hs') as (A & B & C & D).
      repeat split; try lia; try assumption.
      * intros i Hi. destruct (Z.eq_dec i p) as [->|Hne].
        -- rewrite Hc. assumption.
        -- apply B. lia.
      * intros _. apply D. lia.
Qed.

Lemma find_first_symbols_spec (symbols : list ascii) (buf : buffer) (p : Z) :
  0 <= p ->
  let r := find_first_symbols symbols buf p in
  p <= r <= Z.max p (buf_end buf)
  /\ (forall i, p <= i < r -> existsb (Ascii.eqb (byte_at buf i)) symbols = false)
  /\ (r < buf_end buf -> existsb (Ascii.eqb (byte_at buf r)) symbols = true).
Proof.
  intros Hp. unfold find_first_symbols.
  destruct (Z.ltb_spec p 0); [lia|].
  destruct (find_first_from_spec symbols buf _ p Hp eq_refl) as (A & B & C & _).
  repeat split; try assumption; lia.
Qed.

(** ** quotedString *)

Lemma quote_or_backslash (quote c : ascii) :
  existsb (Ascii.eqb c) [quote; backslash] = true -> c = quote \/ c = backslash.
Proof.
  simpl. rewrite orb_false_r. intros H.
  apply orb_true_iff in H. destruct H as [H|H]; apply Ascii.eqb_eq in H; auto.
Qed.

Lemma quotedString_body_ok (quote : ascii) (success_token error_token : TokenType)
    (buf : buffer) (token_begin p : Z) :
  0 <= p <= buf_end buf ->
  iteration_ok success_token error_token buf token_begin p
    (quotedString_body quote success_token error_token buf token_begin p).
Proof.
  intros Hp. unfold quotedString_body.
  destruct (find_first_symbols_spec [quote; backslash] buf p ltac:(lia)) as (Hr & _ & Hsym).
  set (r := find_first_symbols [quote; backslash] buf p) in *.
  destruct (Z.geb_spec r (buf_end buf)) as [Hge|Hlt]; simpl.
  - split; [reflexivity|]. right. repeat split; lia.
  - destruct (quote_or_backslash quote _ (Hsym Hlt)) as [Hq|Hb].
    + rewrite Hq, Ascii.eqb_refl.
      destruct ((r + 1 <? buf_end buf) && (byte_at buf (r + 1) =? quote)%char) eqn:Hc; simpl.
      * apply andb_true_iff in Hc. destruct Hc as [Hc _]. apply Z.ltb_lt in Hc. lia.
      * split; [reflexivity|]. left. repeat split; lia.
    + destruct (byte_at buf r =? quote)%char eqn:Hq.
      * destruct ((r + 1 <? buf_end buf) && (byte_at buf (r + 1) =? quote)%char) eqn:Hc; simpl.
        -- apply andb_true_iff in Hc. destruct Hc as [Hc _]. apply Z.ltb_lt in Hc. lia.
        -- split; [reflexivity|]. left. repeat split; lia.
      * rewrite Hb. unfold backslash at 1. rewrite Ascii.eqb_refl.
        destruct (Z.geb_spec (r + 1) (buf_end buf)); simpl.
        -- split; [reflexivity|]. right. repeat split; lia.
        -- lia.
Qed.

Lemma quotedString_loop_ok (quote : ascii) (success_token error_token : TokenType)
    (buf : buffer) (token_begin : Z) :
  forall (fuel : nat) (p : Z),
    0 <= p <= buf_end buf ->
    (Z.to_nat (buf_end buf - p) < fuel)%nat ->
    exists t p',
      quotedString_loop fuel quote success_token error_token buf token_begin p
        = Some (t, p')
      /\ iteration_ok success_token error_token buf token_begin p (Return t p').
Proof.
  induction fuel as [|fuel IH]; intros p Hp Hfuel; [lia|].
  simpl.
  pose proof (quotedString_body_ok quote success_token error_token buf token_begin p Hp) as Hb.
  destruct (quotedString_body quote success_token error_token buf token_begin p)
    as [t p'|p'|]; simpl in Hb.
  - exists t, p'. split; [reflexivity|exact Hb].
  - destruct (IH p' ltac:(lia) ltac:(lia)) as (t & q & Hl & Hbegin & Hcases).
    exists t, q. split; [exact Hl|]. split; [exact Hbegin|].
    destruct Hcases as [(A & B & C)|(A & B & C)]; [left|right]; repeat split; lia || assumption.
  - contradiction.
Qed.

Lemma quotedString_ok (quote : ascii) (success_token error_token : TokenType)
    (buf : buffer) (p : Z) :
  0 <= p < buf_end buf ->
  exists t p',
    quotedString quote success_token error_token buf p p = Some (t, p')
    /\ begin t = p
    /\ ((type t = success_token /\ end_ t = p' /\ p + 1 < p' <= buf_end buf)
        \/ (type t = error_token /\ end_ t = buf_end buf /\ p' = buf_end buf)).
Proof.
  intros Hp. unfold quotedString.
  destruct (quotedString_loop_ok quote success_token error_token buf p
              (S (Z.to_nat (buf_end buf - (p + 1)))) (p + 1) ltac:(lia) ltac:(lia))
    as (t & p' & Hl & Hbegin & Hcases).
  exists t, p'. repeat split; assumption.
Qed.

(** ** Multiline comments *)

Lemma multilineComment_loop_ok (buf : buffer) (token_begin : Z) :
  forall (fuel : nat) (p : Z),
    (Z.to_nat (buf_end buf - p) < fuel)%nat ->
    exists t p',
      multilineComment_loop fuel buf token_begin p = Some (t, p')
      /\ begin t = token_begin
      /\ ((type t = Comment /\ end_ t = p' /\ p + 2 <= p' <= buf_end buf)
          \/ (type t = ErrorMultilineCommentIsNotClosed /\ end_ t = buf_end buf
              /\ p <= p' /\ buf_end buf - 2 < p' /\ (p' < buf_end buf \/ p' = p))).
Proof.
  induction fuel as [|fuel IH]; intros p Hfuel; [lia|].
  simpl.
  destruct (Z.leb_spec p (buf_end buf - 2)) as [Hle|Hgt].
  - destruct ((byte_at buf p =? "*")%char && (byte_at buf (p + 1) =? "/")%char).
    + eexists _, _. split; [reflexivity|]. split; [reflexivity|].
      left. simpl. repeat split; lia.
    + destruct (IH (p + 1) ltac:(lia)) as (t & p' & Hl & Hbegin & Hcases).
      exists t, p'. split; [exact Hl|]. split; [exact Hbegin|].
      destruct Hcases as [(A & B & C)|(A & B & C & D & E)]; [left|right];
        repeat split; lia || assumption.
  - eexists _, _. split; [reflexivity|]. split; [reflexivity|].
    right. simpl. repeat split; lia.
Qed.

Lemma multilineComment_ok (buf : buffer) (token_begin p : Z) :
  exists t p',
    multilineComment buf token_begin p = Some (t, p')
    /\ begin t = token_begin
    /\ ((type t = Comment /\ end_ t = p' /\ p + 2 <= p' <= buf_end buf)
        \/ (type t = ErrorMultilineCommentIsNotClosed /\ end_ t = buf_end buf
            /\ p <= p' /\ buf_end buf - 2 < p' /\ (p' < buf_end buf \/ p' = p))).
Proof.
  unfold multilineComment. apply multilineComment_loop_ok. lia.
Qed.

(** ** Numbers *)

Lemma radix_prefix_bounds (buf : buffer) (p : Z) :
  p <= radix_prefix buf p
  /\ (p <= buf_end buf -> radix_prefix buf p <= buf_end buf).
Proof.
  unfold radix_prefix.
  destruct (Z.ltb_spec p (buf_end buf - 2)); simpl; [|lia].
  destruct (_ && _); lia.
Qed.

Lemma decimal_point_bounds (buf : buffer) (p : Z) :
  p <= decimal_point buf p
  /\ (p <= buf_end buf -> decimal_point buf p <= buf_end buf).
Proof.
  unfold decimal_point.
  destruct (Z.ltb_spec p (buf_end buf)); simpl; [|lia].
  destruct (_ =? _)%char; [|lia].
  pose proof (skip_while_ge isNumericASCII buf (p + 1)).
  pose proof (skip_while_le isNumericASCII buf (p + 1)). lia.
Qed.

Lemma sign_of_exponent_bounds (buf : buffer) (p : Z) :
  p <= sign_of_exponent buf p
  /\ (p <= buf_end buf -> sign_of_exponent buf p <= buf_end buf).
Proof.
  unfold sign_of_exponent.
  destruct (Z.ltb_spec p (buf_end buf - 1)); simpl; [|lia].
  destruct (_ || _); lia.
Qed.

Lemma exponentation_bounds (buf : buffer) (p : Z) :
  p <= exponentation buf p
  /\ (p <= buf_end buf -> exponentation buf p <= buf_end buf).
Proof.
  unfold exponentation.
  destruct (Z.ltb_spec (p + 1) (buf_end buf)); simpl; [|lia].
  destruct (_ || _); [|lia].
  pose proof (sign_of_exponent_bounds buf (p + 1)) as [? ?].
  pose proof (skip_while_ge isNumericASCII buf (sign_of_exponent buf (p + 1))).
  pose proof (skip_while_le isNumericASCII buf (sign_of_exponent buf (p + 1))). lia.
Qed.

(** The two copies of the exponent code test the same thing. *)
Lemma exponentation_after_dot_eq (buf : buffer) (p : Z) :
  exponentation_after_dot buf p = exponentation buf p.
Proof.
  unfold exponentation_after_dot, exponentation.
  replace (p <? buf_end buf - 1) with (p + 1 <? buf_end buf); [reflexivity|].
  destruct (Z.ltb_spec (p + 1) (buf_end buf)), (Z.ltb_spec p (buf_end buf - 1));
    reflexivity || lia.
Qed.

Lemma mantissa_bounds (buf : buffer) (p : Z) :
  p < buf_end buf -> isNumericASCII (byte_at buf p) = true ->
  p < mantissa buf p <= buf_end buf.
Proof.
  intros Hp Hd. unfold mantissa.
  pose proof (radix_prefix_bounds buf p) as [Hr1 Hr2].
  pose proof (decimal_point_bounds buf (skip_while isNumericASCII buf (radix_prefix buf p)))
    as [Hd1 Hd2].
  pose proof (skip_while_le isNumericASCII buf (radix_prefix buf p)) as Hs2.
  pose proof (skip_while_ge isNumericASCII buf (radix_prefix buf p)) as Hs1.
  split; [|lia].
  destruct (Z.eq_dec (radix_prefix buf p) p) as [Heq|Hne]; [|lia].
  rewrite Heq in *.
  rewrite (skip_while_step isNumericASCII buf p Hp Hd) in *.
  pose proof (skip_while_ge isNumericASCII buf (p + 1)). lia.
Qed.

Lemma sign_of_exponent_cases (buf : buffer) (p : Z) :
  let signed :=
    p + 1 < buf_end buf
    /\ (byte_at buf p = "-"%char \/ byte_at buf p = "+"%char) in
  (signed -> sign_of_exponent buf p = p + 1)
  /\ (~ signed -> sign_of_exponent buf p = p).
Proof.
  unfold sign_of_exponent. split.
  - intros (Hlt & Hsign).
    replace (p <? buf_end buf - 1) with true by lia.
    destruct Hsign as [-> | ->]; reflexivity.
  - intros Hn.
    destruct ((p <? buf_end buf - 1)
              && ((byte_at buf p =? "-")%char || (byte_at buf p =? "+")%char)) eqn:Hc;
      [|reflexivity].
    exfalso. apply Hn.
    apply andb_true_iff in Hc. destruct Hc as [Hlt Hsign]. split; [lia|].
    apply orb_true_iff in Hsign.
    destruct Hsign as [Hsign|Hsign]; apply Ascii.eqb_eq in Hsign; auto.
Qed.

Lemma exponentation_consumed (buf : buffer) (m : Z) :
  m + 1 < buf_end buf ->
  byte_at buf m = "e"%char \/ byte_at buf m = "p"%char ->
  exponent_consumed buf m (exponentation buf m).
Proof.
  intros Hlt Hletter.
  assert (Hexp : exponentation buf m
                 = skip_while isNumericASCII buf (sign_of_exponent buf (m + 1))).
  { unfold exponentation.
    replace (m + 1 <? buf_end buf) with true by lia.
    destruct Hletter as [-> | ->]; reflexivity. }
  rewrite Hexp.
  destruct (sign_of_exponent_cases buf (m + 1)) as [Hsigned Hunsigned].
  pose proof (sign_of_exponent_bounds buf (m + 1)) as [? ?].
  set (s := sign_of_exponent buf (m + 1)) in *.
  exists s.
  split; [|split; [|split; [|split]]].
  - intros (Hlt2 & Hsign). rewrite Hsigned; [lia|]. split; [lia|exact Hsign].
  - intros Hn. apply Hunsigned. intros (Hlt2 & Hsign). apply Hn. split; [lia|exact Hsign].
  - pose proof (skip_while_ge isNumericASCII buf s).
    pose proof (skip_while_le isNumericASCII buf s). lia.
  - intros i Hi. exact (skip_while_all isNumericASCII buf s i Hi).
  - intros Hq. pose proof (skip_while_exit isNumericASCII buf s) as He.
    cbv zeta in He. apply andb_false_iff in He. destruct He as [He|He]; [lia|exact He].
Qed.

(** ** One call of nextToken *)

Ltac split_branch :=
  match goal with
  | |- context [if ?c then _ else _] => destruct c eqn:?
  end.

Ltac skip_bounds :=
  repeat match goal with
  | |- context [skip_while ?f ?b ?q] =>
      lazymatch goal with
      | _ : q <= skip_while f b q |- _ => fail
      | _ => pose proof (skip_while_ge f b q); pose proof (skip_while_le f b q)
      end
  end.

Lemma commentUntilEndOfLine_ok (buf : buffer) (token_begin p : Z) :
  0 <= p <= buf_end buf ->
  exists p',
    commentUntilEndOfLine buf token_begin p = (Token_range Comment token_begin p', p')
    /\ p <= p' <= buf_end buf.
Proof.
  intros Hp. unfold commentUntilEndOfLine.
  destruct (find_first_symbols_spec ["010"%char] buf p ltac:(lia)) as (Hr & _).
  eexists. split; [reflexivity|]. lia.
Qed.

Lemma nextToken_at_shape (buf : buffer) (p : Z) :
  0 <= p ->
  exists t p', nextToken_at buf p = Some (t, p') /\ token_shape buf p t p'.
Proof.
  intros Hp. unfold nextToken_at. cbv zeta.
  destruct (Z.geb_spec p (buf_end buf)) as [Hge|Hlt].
  { eexists _, _. split; [reflexivity|]. unfold token_shape; simpl. lia. }
  repeat split_branch;
    try (eexists _, _; split; [reflexivity|];
         unfold token_shape, Token_range, Token_sized; simpl;
         skip_bounds; lia).
  - (* a number *)
    eexists _, _. split; [reflexivity|]. unfold token_shape; simpl.
    pose proof (mantissa_bounds buf p Hlt ltac:(assumption)).
    pose proof (exponentation_bounds buf (mantissa buf p)). lia.
  - destruct (quotedString_ok "'" StringLiteral ErrorSingleQuoteIsNotClosed buf p
                ltac:(lia)) as (t & p' & Hq & Hb & [(A & B & C)|(A & B & C)]);
      exists t, p'; (split; [exact Hq|]); unfold token_shape; rewrite A; lia.
  - destruct (quotedString_ok "034" QuotedIdentifier ErrorDoubleQuoteIsNotClosed buf p
                ltac:(lia)) as (t & p' & Hq & Hb & [(A & B & C)|(A & B & C)]);
      exists t, p'; (split; [exact Hq|]); unfold token_shape; rewrite A; lia.
  - destruct (quotedString_ok "`" QuotedIdentifier ErrorBackQuoteIsNotClosed buf p
                ltac:(lia)) as (t & p' & Hq & Hb & [(A & B & C)|(A & B & C)]);
      exists t, p'; (split; [exact Hq|]); unfold token_shape; rewrite A; lia.
  - (* a number that starts with a dot *)
    eexists _, _. split; [reflexivity|]. unfold token_shape; simpl.
    rewrite exponentation_after_dot_eq.
    pose proof (exponentation_bounds buf (skip_while isNumericASCII buf (p + 1))).
    skip_bounds. lia.
  - (* -- *)
    destruct (commentUntilEndOfLine_ok buf p (p + 1 + 1) ltac:(lia)) as (p' & Hc & Hb).
    rewrite Hc. eexists _, _. split; [reflexivity|]. unfold token_shape; simpl. lia.
  - (* // *)
    destruct (commentUntilEndOfLine_ok buf p (p + 1 + 1) ltac:(lia)) as (p' & Hc & Hb).
    rewrite Hc. eexists _, _. split; [reflexivity|]. unfold token_shape; simpl. lia.
  - (* /* *)
    destruct (multilineComment_ok buf p (p + 1 + 1))
      as (t & p' & Hm & Hb & [(A & B & C)|(A & B & C & D & E)]);
      exists t, p'; (split; [exact Hm|]); unfold token_shape; rewrite A; lia.
Qed.

(** A call never runs into undefined behaviour: it returns a token. *)
Lemma nextToken_total (lx : Lexer) :
  0 <= pos lx -> exists t lx', nextToken lx = Some (t, lx').
Proof.
  intros Hp. unfold nextToken.
  destruct (nextToken_at_shape (input lx) (pos lx) Hp) as (t & p' & H & _).
  rewrite H. eauto.
Qed.

Lemma nextToken_mk (buf : buffer) (p : Z) :
  nextToken (mkLexer buf p)
  = match nextToken_at buf p with
    | Some (t, p') => Some (t, mkLexer buf p')
    | None => None
    end.
Proof. reflexivity. Qed.

(** * The claims *)

(** ** Dot *)

(** C7: at a ['.'], when the cursor is past the begin of the buffer and the
    byte before it is [')'], [']'] or an ASCII letter or digit, the token is a
    [Dot] of length 1; otherwise it is a [Number] made of the dot, the digits
    that follow (up to the first byte [f] that is not a digit) and the optional
    exponent: when the byte at [f] is ['e'] or ['p'] and a byte follows it, the
    letter, a sign that is followed by a byte and the digits after them, up to
    the first byte that is not a digit; when there is no such letter the number
    ends at [f].  A ['.'] that is the whole input is a [Number] of length 1. *)
Theorem dot_selects_Dot_or_Number (buf : buffer) (p : Z) :
  0 <= p < buf_end buf ->
  byte_at buf p = "."%char ->
  let after_identifier :=
    0 < p /\ (byte_at buf (p - 1) = ")"%char \/ byte_at buf (p - 1) = "]"%char
              \/ isAlphaNumericASCII (byte_at buf (p - 1)) = true) in
  (after_identifier ->
     nextToken (mkLexer buf p)
     = Some (Token_range Dot p (p + 1), mkLexer buf (p + 1)))
  /\ (~ after_identifier ->
      exists f q,
        nextToken (mkLexer buf p) = Some (Token_range Number p q, mkLexer buf q)
        /\ p + 1 <= f <= q /\ q <= buf_end buf
        /\ (forall i, p + 1 <= i < f -> isNumericASCII (byte_at buf i) = true)
        /\ (f < buf_end buf -> isNumericASCII (byte_at buf f) = false)
        /\ let has_exponent :=
             f + 1 < buf_end buf
             /\ (byte_at buf f = "e"%char \/ byte_at buf f = "p"%char) in
           (has_exponent -> exponent_consumed buf f q)
           /\ (~ has_exponent -> q = f))
  /\ (p = 0 -> buf_end buf = 1 ->
      nextToken (mkLexer buf p) = Some (Token_range Number 0 1, mkLexer buf 1)).
Proof.
  intros Hp Hc after_identifier.
  assert (Hdispatch :
    nextToken_at buf p =
    if (p >? 0)
       && ((byte_at buf (p - 1) =? ")")%char || (byte_at buf (p - 1) =? "]")%char
           || isAlphaNumericASCII (byte_at buf (p - 1)))
    then Some (Token_range Dot p (p + 1), p + 1)
    else
      Some (Token_range Number p
              (exponentation_after_dot buf (skip_while isNumericASCII buf (p + 1))),
            exponentation_after_dot buf (skip_while isNumericASCII buf (p + 1)))).
  { unfold nextToken_at. rewrite Hc.
    destruct (Z.geb_spec p (buf_end buf)); [lia|]. reflexivity. }
  rewrite nextToken_mk, Hdispatch.
  assert (Hnum :
    ~ after_identifier ->
    (p >? 0)
    && ((byte_at buf (p - 1) =? ")")%char || (byte_at buf (p - 1) =? "]")%char
        || isAlphaNumericASCII (byte_at buf (p - 1))) = false).
  { intros Hn. apply not_true_is_false. intros Ht. apply Hn.
    apply andb_true_iff in Ht. destruct Ht as [Hgt Hprev].
    split; [lia|].
    apply orb_true_iff in Hprev. destruct Hprev as [Hprev|Hprev]; [|auto].
    apply orb_true_iff in Hprev.
    destruct Hprev as [Hprev|Hprev]; apply Ascii.eqb_eq in Hprev; auto. }
  split; [|split].
  - intros (Hgt & Hprev).
    replace (p >? 0) with true by lia.
    destruct Hprev as [ -> | [ -> | -> ] ]; simpl; rewrite ?orb_true_r; reflexivity.
  - intros Hn. rewrite (Hnum Hn).
    set (f := skip_while isNumericASCII buf (p + 1)).
    exists f, (exponentation_after_dot buf f).
    split; [reflexivity|].
    pose proof (skip_while_ge isNumericASCII buf (p + 1)).
    pose proof (skip_while_le isNumericASCII buf (p + 1)).
    pose proof (exponentation_bounds buf f) as [? ?].
    rewrite exponentation_after_dot_eq.
    split; [subst f; lia|]. split; [subst f; lia|]. split; [|split; [|split]].
    + intros i Hi. apply (skip_while_all isNumericASCII buf (p + 1)). subst f. lia.
    + intros Hf. pose proof (skip_while_exit isNumericASCII buf (p + 1)) as He.
      fold f in He. cbv zeta in He.
      apply andb_false_iff in He. destruct He as [He|He]; [lia|exact He].
    + intros (Hlt & Hletter). apply exponentation_consumed; assumption.
    + intros Hno. unfold exponentation.
      destruct ((f + 1 <? buf_end buf)
                && ((byte_at buf f =? "e")%char || (byte_at buf f =? "p")%char)) eqn:Hg;
        [|reflexivity].
      exfalso. apply Hno.
      apply andb_true_iff in Hg. destruct Hg as [Hlt Hletter].
      split; [lia|].
      apply orb_true_iff in Hletter.
      destruct Hletter as [Hl|Hl]; apply Ascii.eqb_eq in Hl; auto.
  - intros -> He.
    replace (0 >? 0) with false by reflexivity. simpl.
    rewrite (skip_while_stop isNumericASCII buf 1) by lia.
    unfold exponentation_after_dot.
    replace (1 <? buf_end buf - 1) with false by lia. reflexivity.
Qed.

Lemma dot_selects_Dot_or_Number_witness :
  nextToken (mkLexer (list_ascii_of_string "a.b") 1)
  = Some (Token_range Dot 1 2, mkLexer (list_ascii_of_string "a.b") 2)
  /\ nextToken (Lexer_new ".5e-3")
     = Some (Token_range Number 0 5, mkLexer (list_ascii_of_string ".5e-3") 5)
  /\ exponent_consumed (list_ascii_of_string ".5e-3") 2 5.
Proof.
  split.
  - apply (dot_selects_Dot_or_Number (list_ascii_of_string "a.b") 1);
      [vm_compute; split; [discriminate|reflexivity] | reflexivity |].
    split; [lia|]. right. right. reflexivity.
  - destruct (dot_selects_Dot_or_Number (list_ascii_of_string ".5e-3") 0)
      as (_ & Hnumber & _).
    + vm_compute. split; [discriminate|reflexivity].
    + reflexivity.
    + destruct Hnumber as (f & q & Hcall & Hfq & Hq & Hdigits & Hstop & Hexp & _).
      { intros (Hlt & _). lia. }
      change (buf_end (list_ascii_of_string ".5e-3")) with 5 in *.
      assert (Hq5 : q = 5).
      { change (nextToken (mkLexer (list_ascii_of_string ".5e-3") 0))
          with (Some (Token_range Number 0 5, mkLexer (list_ascii_of_string ".5e-3") 5))
          in Hcall.
        inversion Hcall. reflexivity. }
      assert (Hf2 : f = 2).
      { assert (Hcases : f = 1 \/ f = 2 \/ 3 <= f) by lia.
        destruct Hcases as [Hf|[Hf|Hf]]; [|exact Hf|].
        - assert (Hlt : f < 5) by lia. specialize (Hstop Hlt).
          rewrite Hf in Hstop. vm_compute in Hstop. discriminate Hstop.
        - assert (Hin : 0 + 1 <= 2 < f) by lia. specialize (Hdigits 2 Hin).
          vm_compute in Hdigits. discriminate Hdigits. }
      subst q f. split; [exact Hcall|].
      apply Hexp. split; [lia|]. left. reflexivity.
Defined.

(** The token of [.5e-3] is the whole input: the exponent, with its sign and
    digit, is part of the number. *)
Lemma dot_number_with_exponent :
  tokens 2 (Lexer_new ".5e-3")
  = [Token_range Number 0 5; Token_sized EndOfStream 5 0].
Proof. reflexivity. Qed.

(** ** Quoted strings and identifiers *)

(** C10: in [quotedString], when the scan for the quote or a backslash stops
    before the end of the buffer, the byte there is the quote or a backslash,
    so no iteration of the loop reaches the unreachable mark, and
    [quotedString], called at a byte of the buffer, returns a token.  (The
    scan is [find_first_symbols], modelled from the specification.) *)
Theorem quotedString_never_falls_through (quote : ascii) (buf : buffer) (p : Z) :
  0 <= p ->
  let r := find_first_symbols [quote; backslash] buf p in
  (r < buf_end buf -> byte_at buf r = quote \/ byte_at buf r = backslash)
  /\ (forall (success_token error_token : TokenType) (token_begin : Z),
        quotedString_body quote success_token error_token buf token_begin p
        <> Unreachable)
  /\ (forall (success_token error_token : TokenType),
        p < buf_end buf ->
        quotedString quote success_token error_token buf p p <> None).
Proof.
  intros Hp r.
  assert (Hrun : forall (success_token error_token : TokenType),
             p < buf_end buf ->
             quotedString quote success_token error_token buf p p <> None).
  { intros success_token error_token Hlt.
    destruct (quotedString_ok quote success_token error_token buf p ltac:(lia))
      as (t & p' & Hq & _).
    rewrite Hq. discriminate. }
  destruct (find_first_symbols_spec [quote; backslash] buf p Hp) as (_ & _ & Hsym).
  fold r in Hsym.
  assert (Hbyte : r < buf_end buf -> byte_at buf r = quote \/ byte_at buf r = backslash).
  { intros Hr. apply quote_or_backslash. exact (Hsym Hr). }
  split; [exact Hbyte|]. split; [|exact Hrun].
  intros success_token error_token token_begin.
  unfold quotedString_body. fold r. cbv zeta.
  destruct (Z.geb_spec r (buf_end buf)) as [Hge|Hlt]; [discriminate|].
  destruct (byte_at buf r =? quote)%char eqn:Hq.
  - destruct (_ && _); discriminate.
  - destruct (Hbyte Hlt) as [Hb|Hb].
    + rewrite Hb, Ascii.eqb_refl in Hq. discriminate.
    + rewrite Hb. unfold backslash at 1. rewrite Ascii.eqb_refl.
      destruct (_ >=? _); discriminate.
Qed.

Lemma quotedString_never_falls_through_witness :
  byte_at (list_ascii_of_string "'a\'b'") 2 = backslash
  /\ quotedString_body "'" StringLiteral ErrorSingleQuoteIsNotClosed
       (list_ascii_of_string "'a\'b'") 0 1 <> Unreachable.
Proof.
  split; [reflexivity|].
  apply (quotedString_never_falls_through "'" (list_ascii_of_string "'a\'b'") 1).
  lia.
Defined.

(** C8, as the code has it: inside a quoted span, a quote byte that is
    followed at once by the same quote byte is a doubled-quote escape, and the
    loop goes on after the second of them; a quote byte not followed by one
    ends the lexeme, which is returned with the success kind and the range
    [token_begin, cursor).  The input ['it''s'] is one [StringLiteral] of
    length 7, the whole input, followed by [EndOfStream]. *)
Theorem quote_doubling_continues_the_lexeme
    (quote : ascii) (success_token error_token : TokenType)
    (buf : buffer) (token_begin p : Z) :
  let r := find_first_symbols [quote; backslash] buf p in
  r < buf_end buf ->
  byte_at buf r = quote ->
  let doubled := r + 1 < buf_end buf /\ byte_at buf (r + 1) = quote in
  (doubled ->
     quotedString_body quote success_token error_token buf token_begin p
     = Continue (r + 2)
     /\ forall fuel,
         quotedString_loop (S fuel) quote success_token error_token buf token_begin p
         = quotedString_loop fuel quote success_token error_token buf token_begin (r + 2))
  /\ (~ doubled ->
      quotedString_body quote success_token error_token buf token_begin p
      = Return (Token_range success_token token_begin (r + 1)) (r + 1)
      /\ forall fuel,
          quotedString_loop (S fuel) quote success_token error_token buf token_begin p
          = Some (Token_range success_token token_begin (r + 1), r + 1))
  /\ tokens 2 (Lexer_new "'it''s'")
     = [Token_range StringLiteral 0 7; Token_sized EndOfStream 7 0].
Proof.
  intros r Hr Hq doubled.
  assert (Hbody :
    quotedString_body quote success_token error_token buf token_begin p
    = if (r + 1 <? buf_end buf) && (byte_at buf (r + 1) =? quote)%char
      then Continue (r + 2)
      else Return (Token_range success_token token_begin (r + 1)) (r + 1)).
  { unfold quotedString_body. fold r. cbv zeta.
    destruct (Z.geb_spec r (buf_end buf)); [lia|].
    rewrite Hq, Ascii.eqb_refl.
    replace (r + 1 + 1) with (r + 2) by lia. reflexivity. }
  split; [|split].
  - intros (Hlt & Hnext).
    assert (Hb : quotedString_body quote success_token error_token buf token_begin p
                 = Continue (r + 2)).
    { rewrite Hbody, Hnext, Ascii.eqb_refl.
      replace (r + 1 <? buf_end buf) with true by lia. reflexivity. }
    split; [exact Hb|]. intros fuel. simpl. rewrite Hb. reflexivity.
  - intros Hn.
    assert (Hb : quotedString_body quote success_token error_token buf token_begin p
                 = Return (Token_range success_token token_begin (r + 1)) (r + 1)).
    { rewrite Hbody.
      destruct ((r + 1 <? buf_end buf) && (byte_at buf (r + 1) =? quote)%char) eqn:Hc;
        [|reflexivity].
      exfalso. apply Hn. apply andb_true_iff in Hc. destruct Hc as [Hlt Hnext].
      apply Ascii.eqb_eq in Hnext. split; [lia|exact Hnext]. }
    split; [exact Hb|]. intros fuel. simpl. rewrite Hb. reflexivity.
  - reflexivity.
Qed.

Lemma quote_doubling_continues_the_lexeme_witness :
  quotedString_body "'" StringLiteral ErrorSingleQuoteIsNotClosed
    (list_ascii_of_string "'it''s'") 0 1
  = Continue 5.
Proof.
  apply (quote_doubling_continues_the_lexeme "'" StringLiteral
           ErrorSingleQuoteIsNotClosed (list_ascii_of_string "'it''s'") 0 1);
    [reflexivity | reflexivity | split; reflexivity].
Defined.

(** C8 as stated gives the token for ['it''s'] the length 6; the input has
    seven bytes and the token spans all of them. *)
Lemma quote_doubling_example_is_not_6_long :
  ~ (exists t lx,
       nextToken (Lexer_new "'it''s'") = Some (t, lx)
       /\ type t = StringLiteral /\ size t = 6).
Proof.
  intros (t & lx & H & _ & Hsize).
  vm_compute in H. inversion H; subst. vm_compute in Hsize. discriminate.
Qed.

(** ** Line comments *)

Lemma not_newline (buf : buffer) (i : Z) :
  existsb (Ascii.eqb (byte_at buf i)) ["010"%char] = false ->
  byte_at buf i <> "010"%char.
Proof.
  simpl. rewrite orb_false_r. intros H. apply Ascii.eqb_neq. exact H.
Qed.

Lemma is_newline (buf : buffer) (i : Z) :
  existsb (Ascii.eqb (byte_at buf i)) ["010"%char] = true ->
  byte_at buf i = "010"%char.
Proof.
  simpl. rewrite orb_false_r. intros H. apply Ascii.eqb_eq. exact H.
Qed.

(** C9: a line comment, opened by [--] or [//], runs up to the next newline
    byte, which it leaves out, or to the end of the buffer when there is none,
    and is a [Comment]; the newline begins the next token, a [Whitespace].
    The input [x -- c\ny] gives BareWord(x), Whitespace, Comment(-- c),
    Whitespace(\n), BareWord(y), EndOfStream.  (The scan for the newline is
    [find_first_symbols], modelled from the specification.) *)
Theorem line_comment_ends_before_newline (buf : buffer) (p : Z) :
  0 <= p -> p + 1 < buf_end buf ->
  (byte_at buf p = "-"%char /\ byte_at buf (p + 1) = "-"%char)
  \/ (byte_at buf p = "/"%char /\ byte_at buf (p + 1) = "/"%char) ->
  (exists q,
     nextToken (mkLexer buf p) = Some (Token_range Comment p q, mkLexer buf q)
     /\ p + 2 <= q <= buf_end buf
     /\ (forall i, p + 2 <= i < q -> byte_at buf i <> "010"%char)
     /\ (q = buf_end buf
         \/ (byte_at buf q = "010"%char
             /\ exists q',
                 nextToken (mkLexer buf q)
                 = Some (Token_range Whitespace q q', mkLexer buf q')
                 /\ q < q')))
  /\ tokens 6 (Lexer_new ("x -- c" ++ newline ++ "y"))
     = [Token_range BareWord 0 1; Token_range Whitespace 1 2;
        Token_range Comment 2 6; Token_range Whitespace 6 7;
        Token_range BareWord 7 8; Token_sized EndOfStream 8 0].
Proof.
  intros Hp Hlt Hopen. split; [|reflexivity].
  destruct (find_first_symbols_spec ["010"%char] buf (p + 2) ltac:(lia))
    as (Hr & Hbefore & Hat).
  set (q := find_first_symbols ["010"%char] buf (p + 2)) in *.
  exists q.
  assert (Hcall : nextToken_at buf p = Some (Token_range Comment p q, q)).
  { unfold nextToken_at.
    destruct (Z.geb_spec p (buf_end buf)); [lia|].
    destruct Hopen as [(Hc & Hn)|(Hc & Hn)]; rewrite Hc; simpl; rewrite Hn; simpl;
      replace (p + 1 <? buf_end buf) with true by lia; simpl;
      unfold commentUntilEndOfLine;
      replace (p + 1 + 1) with (p + 2) by lia; reflexivity. }
  rewrite nextToken_mk, Hcall.
  split; [reflexivity|]. split; [lia|]. split.
  - intros i Hi. apply not_newline. apply Hbefore. exact Hi.
  - destruct (Z.eq_dec q (buf_end buf)) as [He|Hne]; [left; exact He|right].
    assert (Hnl : byte_at buf q = "010"%char) by (apply is_newline, Hat; lia).
    split; [exact Hnl|].
    exists (skip_while isWhitespaceASCII buf (q + 1)).
    split.
    + rewrite nextToken_mk. unfold nextToken_at.
      destruct (Z.geb_spec q (buf_end buf)); [lia|].
      rewrite Hnl. reflexivity.
    + pose proof (skip_while_ge isWhitespaceASCII buf (q + 1)). lia.
Qed.

Lemma line_comment_ends_before_newline_witness :
  exists q,
    nextToken (mkLexer (list_ascii_of_string ("x -- c" ++ newline ++ "y")) 2)
    = Some (Token_range Comment 2 q,
            mkLexer (list_ascii_of_string ("x -- c" ++ newline ++ "y")) q)
    /\ 2 + 2 <= q <= 8.
Proof.
  destruct (line_comment_ends_before_newline
              (list_ascii_of_string ("x -- c" ++ newline ++ "y")) 2)
    as ((q & Hcall & Hq & _) & _).
  - lia.
  - reflexivity.
  - left. split; reflexivity.
  - exists q. split; [exact Hcall|exact Hq].
Defined.

(** ** Numbers *)

(** On the input [0x] the number is the ['0'] alone: the prefix is taken only
    when a byte follows it. *)
Lemma radix_prefix_at_end_of_buffer : ~ radix_prefix_claim.
Proof.
  intros H.
  destruct (H (list_ascii_of_string "0x") 0) as (q & Hcall & Hq);
    [lia | reflexivity | reflexivity | left; reflexivity |].
  vm_compute in Hcall. inversion Hcall; subst. lia.
Qed.

(** C5, as the code has it: in a number, when the byte at the cursor is ['0'],
    the next byte is ['x'] or ['b'] and at least one more byte follows these
    two, both are consumed as a radix prefix and are part of the [Number]
    token. *)
Theorem radix_prefix_consumed (buf : buffer) (p : Z) :
  0 <= p -> p + 2 < buf_end buf ->
  byte_at buf p = "0"%char ->
  byte_at buf (p + 1) = "x"%char \/ byte_at buf (p + 1) = "b"%char ->
  radix_prefix buf p = p + 2
  /\ exists q,
      nextToken (mkLexer buf p) = Some (Token_range Number p q, mkLexer buf q)
      /\ p + 2 <= q <= buf_end buf.
Proof.
  intros Hp Hlt Hzero Hnext.
  assert (Hprefix : radix_prefix buf p = p + 2).
  { unfold radix_prefix. rewrite Hzero.
    replace (p <? buf_end buf - 2) with true by lia.
    destruct Hnext as [-> | ->]; reflexivity. }
  split; [exact Hprefix|].
  exists (exponentation buf (mantissa buf p)).
  split.
  - rewrite nextToken_mk. unfold nextToken_at.
    destruct (Z.geb_spec p (buf_end buf)); [lia|].
    rewrite Hzero. reflexivity.
  - unfold mantissa. rewrite Hprefix.
    pose proof (skip_while_ge isNumericASCII buf (p + 2)).
    pose proof (skip_while_le isNumericASCII buf (p + 2)).
    pose proof (decimal_point_bounds buf (skip_while isNumericASCII buf (p + 2))) as [? ?].
    pose proof (exponentation_bounds buf
                  (decimal_point buf (skip_while isNumericASCII buf (p + 2)))) as [? ?].
    lia.
Qed.

Lemma radix_prefix_consumed_witness :
  radix_prefix (list_ascii_of_string "0x1F") 0 = 2
  /\ exists q,
      nextToken (Lexer_new "0x1F")
      = Some (Token_range Number 0 q, mkLexer (list_ascii_of_string "0x1F") q)
      /\ 0 + 2 <= q <= 4.
Proof.
  apply (radix_prefix_consumed (list_ascii_of_string "0x1F") 0);
    [lia | reflexivity | reflexivity | left; reflexivity].
Defined.

(** On the input [1e+] the number is [1e], of length 2, and the ['+'] is a
    token of its own: the sign is taken only when a byte follows it. *)
Lemma exponent_sign_at_end_of_buffer :
  ~ exponent_sign_claim
  /\ tokens 3 (Lexer_new "1e+")
     = [Token_range Number 0 2; Token_range Plus 2 3; Token_sized EndOfStream 3 0].
Proof.
  split; [|reflexivity].
  intros H.
  destruct (H (list_ascii_of_string "1e+") 0) as (q & Hcall & Hq);
    [vm_compute; split; [discriminate|reflexivity] | reflexivity | reflexivity
     | left; reflexivity | right; reflexivity |].
  vm_compute in Hcall. inversion Hcall; subst.
  vm_compute in Hq. apply Hq. reflexivity.
Qed.

Lemma digit_dispatch (c : ascii) :
  isNumericASCII c = true ->
  (c =? " ")%char || (c =? "009")%char || (c =? "010")%char
  || (c =? "013")%char || (c =? "012")%char || (c =? "011")%char = false
  /\ in_range "a" "z" c || in_range "A" "Z" c || (c =? "_")%char = false.
Proof.
  destruct c as [[] [] [] [] [] [] [] []]; vm_compute; intros H;
    try discriminate H; split; reflexivity.
Qed.

Lemma nextToken_at_digit (buf : buffer) (p : Z) :
  p < buf_end buf ->
  isNumericASCII (byte_at buf p) = true ->
  nextToken_at buf p
  = Some (Token_range Number p (exponentation buf (mantissa buf p)),
          exponentation buf (mantissa buf p)).
Proof.
  intros Hp Hdigit. unfold nextToken_at. cbv zeta.
  destruct (Z.geb_spec p (buf_end buf)); [lia|].
  destruct (digit_dispatch (byte_at buf p) Hdigit) as [Hws Hword].
  rewrite Hws, Hword.
  unfold isNumericASCII in Hdigit. rewrite Hdigit. reflexivity.
Qed.

Lemma nextToken_at_leading_dot (buf : buffer) (p : Z) :
  p < buf_end buf ->
  byte_at buf p = "."%char ->
  ~ (0 < p /\ (byte_at buf (p - 1) = ")"%char \/ byte_at buf (p - 1) = "]"%char
               \/ isAlphaNumericASCII (byte_at buf (p - 1)) = true)) ->
  nextToken_at buf p
  = Some (Token_range Number p
            (exponentation_after_dot buf (skip_while isNumericASCII buf (p + 1))),
          exponentation_after_dot buf (skip_while isNumericASCII buf (p + 1))).
Proof.
  intros Hp Hc Hn. unfold nextToken_at. rewrite Hc.
  destruct (Z.geb_spec p (buf_end buf)); [lia|]. simpl.
  destruct ((p >? 0)
            && ((byte_at buf (p - 1) =? ")")%char || (byte_at buf (p - 1) =? "]")%char
                || isAlphaNumericASCII (byte_at buf (p - 1)))) eqn:Ht; [|reflexivity].
  exfalso. apply Hn.
  apply andb_true_iff in Ht. destruct Ht as [Hgt Hprev].
  split; [lia|].
  apply orb_true_iff in Hprev. destruct Hprev as [Hprev|Hprev]; [|auto].
  apply orb_true_iff in Hprev.
  destruct Hprev as [Hprev|Hprev]; apply Ascii.eqb_eq in Hprev; auto.
Qed.

(** C6, as the code has it: in a number, when the byte after the digits is
    ['e'] or ['p'] and at least one byte remains after it, the letter is
    consumed; then a single ['+'] or ['-'] is consumed when it is present and
    at least one byte remains after it; then the decimal digits that follow
    are consumed.  All of these bytes belong to the one [Number] token.  This
    holds for a number that starts with a digit and for one that starts with a
    dot.  The input [1e+] gives a [Number] of length 2 and then a [Plus]. *)
Theorem exponent_of_number (buf : buffer) (p : Z) :
  0 <= p < buf_end buf ->
  (isNumericASCII (byte_at buf p) = true ->
   let m := mantissa buf p in
   m + 1 < buf_end buf ->
   byte_at buf m = "e"%char \/ byte_at buf m = "p"%char ->
   exists q,
     nextToken (mkLexer buf p) = Some (Token_range Number p q, mkLexer buf q)
     /\ exponent_consumed buf m q)
  /\ (byte_at buf p = "."%char ->
      ~ (0 < p /\ (byte_at buf (p - 1) = ")"%char \/ byte_at buf (p - 1) = "]"%char
                   \/ isAlphaNumericASCII (byte_at buf (p - 1)) = true)) ->
      let m := skip_while isNumericASCII buf (p + 1) in
      m + 1 < buf_end buf ->
      byte_at buf m = "e"%char \/ byte_at buf m = "p"%char ->
      exists q,
        nextToken (mkLexer buf p) = Some (Token_range Number p q, mkLexer buf q)
        /\ exponent_consumed buf m q)
  /\ tokens 3 (Lexer_new "1e+")
     = [Token_range Number 0 2; Token_range Plus 2 3; Token_sized EndOfStream 3 0].
Proof.
  intros Hp. split; [|split; [|reflexivity]].
  - intros Hdigit m Hlt Hletter.
    exists (exponentation buf m). split.
    + rewrite nextToken_mk, nextToken_at_digit by (lia || assumption). reflexivity.
    + apply exponentation_consumed; assumption.
  - intros Hdot Hn m Hlt Hletter.
    exists (exponentation buf m). split.
    + rewrite nextToken_mk, nextToken_at_leading_dot by (lia || assumption).
      rewrite exponentation_after_dot_eq. reflexivity.
    + apply exponentation_consumed; assumption.
Qed.

Lemma exponent_of_number_witness :
  exists q,
    nextToken (Lexer_new "1p+2")
    = Some (Token_range Number 0 q, mkLexer (list_ascii_of_string "1p+2") q)
    /\ exponent_consumed (list_ascii_of_string "1p+2") 1 q.
Proof.
  destruct (exponent_of_number (list_ascii_of_string "1p+2") 0) as (Hdigit & _).
  - vm_compute. split; [discriminate|reflexivity].
  - apply Hdigit; [reflexivity | reflexivity | right; reflexivity].
Defined.

(** ** Error tokens *)

Lemma nextToken_at_inv (buf : buffer) (p : Z) (t : Token) (p' : Z) :
  0 <= p -> nextToken_at buf p = Some (t, p') -> token_shape buf p t p'.
Proof.
  intros Hp H.
  destruct (nextToken_at_shape buf p Hp) as (t0 & p0 & H0 & Hshape).
  rewrite H in H0. inversion H0; subst. exact Hshape.
Qed.

(** The error tokens of one byte: [Error], [ErrorSingleExclamationMark] and
    [ErrorSinglePipeMark] leave the cursor one byte past their begin;
    [ErrorWordWithoutWhitespace] has length 1 as well, and leaves the cursor
    at its begin. *)
Lemma single_byte_errors (buf : buffer) (p : Z) (t : Token) (p' : Z) :
  0 <= p -> nextToken_at buf p = Some (t, p') ->
  (type t = Error \/ type t = ErrorSingleExclamationMark
   \/ type t = ErrorSinglePipeMark ->
   begin t = p /\ end_ t = p + 1 /\ p' = p + 1)
  /\ (type t = ErrorWordWithoutWhitespace ->
      begin t = p /\ end_ t = p + 1 /\ p' = p).
Proof.
  intros Hp H. pose proof (nextToken_at_inv buf p t p' Hp H) as Hshape.
  unfold token_shape in Hshape. split.
  - intros [Ht|[Ht|Ht]]; rewrite Ht in Hshape; lia.
  - intros Ht; rewrite Ht in Hshape; lia.
Qed.

(** An unclosed quote: the token runs to the end of the buffer, the cursor
    stands at the end, and the next call returns [EndOfStream]. *)
Lemma unclosed_quote_spans_tail (buf : buffer) (p : Z) (t : Token) (p' : Z) :
  0 <= p -> nextToken_at buf p = Some (t, p') ->
  type t = ErrorSingleQuoteIsNotClosed \/ type t = ErrorDoubleQuoteIsNotClosed
  \/ type t = ErrorBackQuoteIsNotClosed ->
  begin t = p /\ end_ t = buf_end buf /\ p' = buf_end buf
  /\ nextToken_at buf p' = Some (Token_sized EndOfStream (buf_end buf) 0, p').
Proof.
  intros Hp H Ht. pose proof (nextToken_at_inv buf p t p' Hp H) as Hshape.
  unfold token_shape in Hshape.
  assert (Hs : begin t = p /\ end_ t = buf_end buf /\ p' = buf_end buf)
    by (destruct Ht as [Ht|[Ht|Ht]]; rewrite Ht in Hshape; lia).
  destruct Hs as (A & B & C). repeat split; try assumption.
  subst p'. unfold nextToken_at.
  replace (buf_end buf >=? buf_end buf) with true by lia. reflexivity.
Qed.

(** An unclosed multiline comment: the token runs to the end of the buffer,
    and the cursor stands at the end or one byte before it. *)
Lemma unclosed_comment_spans_tail (buf : buffer) (p : Z) (t : Token) (p' : Z) :
  0 <= p -> nextToken_at buf p = Some (t, p') ->
  type t = ErrorMultilineCommentIsNotClosed ->
  begin t = p /\ end_ t = buf_end buf
  /\ (p' = buf_end buf \/ p' = buf_end buf - 1).
Proof.
  intros Hp H Ht. pose proof (nextToken_at_inv buf p t p' Hp H) as Hshape.
  unfold token_shape in Hshape. rewrite Ht in Hshape. lia.
Qed.

(** Every other token ends where the cursor stands after the call, which is
    past its begin, where the cursor stood before. *)
Lemma token_ends_at_cursor (buf : buffer) (p : Z) (t : Token) (p' : Z) :
  0 <= p -> nextToken_at buf p = Some (t, p') ->
  type t <> EndOfStream -> type t <> ErrorWordWithoutWhitespace ->
  type t <> ErrorMultilineCommentIsNotClosed ->
  begin t = p /\ end_ t = p' /\ p < p' <= buf_end buf.
Proof.
  intros Hp H H1 H2 H3. pose proof (nextToken_at_inv buf p t p' Hp H) as Hshape.
  unfold token_shape in Hshape.
  destruct (type t); try contradiction; lia.
Qed.

(** C1, at the input [1a]: after the [Number] for [1], the call at the
    ['a'] returns [ErrorWordWithoutWhitespace] for the range [1, 2) and leaves
    the cursor at 1, the begin of the token, not one byte past it. *)
Theorem word_error_leaves_the_cursor :
  nextToken (Lexer_new "1a") = Some (Token_range Number 0 1, mkLexer input_1a 1)
  /\ nextToken (mkLexer input_1a 1)
     = Some (Token_sized ErrorWordWithoutWhitespace 1 1, mkLexer input_1a 1)
  /\ pos (mkLexer input_1a 1) <> begin (Token_sized ErrorWordWithoutWhitespace 1 1) + 1.
Proof.
  split; [reflexivity|]. split; [reflexivity|]. simpl. lia.
Qed.

(** ** The token stream *)

(** C2, at the input [/*a]: the tokens are the unclosed comment with range
    [0, 3), a [BareWord] with range [2, 3) and [EndOfStream]; the first two
    overlap, so no run of calls gives ranges that cover the buffer once. *)
Theorem unclosed_comment_breaks_coverage :
  tokens 3 (Lexer_new "/*a")
  = [Token_range ErrorMultilineCommentIsNotClosed 0 3;
     Token_range BareWord 2 3; Token_sized EndOfStream 3 0]
  /\ forall n, ~ covers_from (buf_end input_unclosed) 0 (tokens n (Lexer_new "/*a")).
Proof.
  split; [reflexivity|].
  intros [|[|[|n]]]; vm_compute; intros H; try (exact H);
    decompose [and] H; discriminate.
Qed.

Lemma covers_from_example :
  covers_from 8 0 (tokens 4 (Lexer_new "SELECT 1")).
Proof. vm_compute. repeat split; discriminate. Qed.

(** C3, at the input [1a]: after the [Number], every call returns the same
    [ErrorWordWithoutWhitespace] token and leaves the lexer as it was, so the
    stream never reaches [EndOfStream]. *)
Theorem word_error_repeats_forever :
  forall n : nat,
    tokens (S n) (Lexer_new "1a")
    = Token_range Number 0 1 :: repeat (Token_sized ErrorWordWithoutWhitespace 1 1) n
    /\ ~ In EndOfStream (map type (tokens n (Lexer_new "1a"))).
Proof.
  assert (Hloop : forall n, tokens n (mkLexer input_1a 1)
                            = repeat (Token_sized ErrorWordWithoutWhitespace 1 1) n).
  { induction n as [|n IH]; [reflexivity|].
    change (tokens (S n) (mkLexer input_1a 1))
      with (Token_sized ErrorWordWithoutWhitespace 1 1 :: tokens n (mkLexer input_1a 1)).
    rewrite IH. reflexivity. }
  assert (Hall : forall n, tokens (S n) (Lexer_new "1a")
                           = Token_range Number 0 1
                             :: repeat (Token_sized ErrorWordWithoutWhitespace 1 1) n).
  { intros n.
    change (tokens (S n) (Lexer_new "1a"))
      with (Token_range Number 0 1 :: tokens n (mkLexer input_1a 1)).
    rewrite Hloop. reflexivity. }
  intros n. split; [apply Hall|].
  destruct n as [|n]; [simpl; tauto|].
  rewrite Hall. simpl. intros [H|H]; [discriminate|].
  apply in_map_iff in H. destruct H as (t & Ht & Hin).
  apply repeat_spec in Hin. subst t. discriminate.
Qed.

(** C4, at the input [/*a]: the unclosed comment has the range [0, 3), the
    whole buffer, and the cursor is left at 2; the next call returns a
    [BareWord] for the last byte, not [EndOfStream]. *)
Theorem unclosed_comment_is_followed_by_a_token :
  nextToken (Lexer_new "/*a")
  = Some (Token_range ErrorMultilineCommentIsNotClosed 0 3, mkLexer input_unclosed 2)
  /\ nextToken (mkLexer input_unclosed 2)
     = Some (Token_range BareWord 2 3, mkLexer input_unclosed 3).
Proof.
  split; reflexivity.
Qed.

(** * More properties of the lexer *)

(** ** The kind of a token and its first byte *)

Ltac use_tests :=
  repeat match goal with
  | H : ?c = true |- context [?c] => rewrite H
  | H : ?c = false |- context [?c] => rewrite H
  end.

Lemma nextToken_at_first_byte (buf : buffer) (p : Z) (t : Token) (p' : Z) :
  0 <= p -> nextToken_at buf p = Some (t, p') ->
  type t <> EndOfStream ->
  p < buf_end buf /\ first_byte (type t) (byte_at buf p) = true.
Proof.
  intros Hp H Hne.
  destruct (Z.ltb_spec p (buf_end buf)) as [Hlt|Hge].
  2:{ exfalso. apply Hne. unfold nextToken_at in H.
      replace (p >=? buf_end buf) with true in H by lia.
      inversion H; subst. reflexivity. }
  split; [exact Hlt|]. clear Hne.
  revert H. unfold nextToken_at. cbv zeta.
  replace (p >=? buf_end buf) with false by lia.
  repeat split_branch; intros H;
    try (inversion H; subst; clear H;
         unfold commentUntilEndOfLine, Token_range, Token_sized, first_byte,
           has_case_label, isWhitespaceASCII, word_start; simpl type;
         use_tests; reflexivity).
  - destruct (quotedString_ok "'" StringLiteral ErrorSingleQuoteIsNotClosed buf p
                ltac:(lia)) as (t0 & p0 & Hq & _ & [(A & _)|(A & _)]);
      rewrite Hq in H; inversion H; subst; rewrite A; simpl; use_tests; reflexivity.
  - destruct (quotedString_ok "034" QuotedIdentifier ErrorDoubleQuoteIsNotClosed buf p
                ltac:(lia)) as (t0 & p0 & Hq & _ & [(A & _)|(A & _)]);
      rewrite Hq in H; inversion H; subst; rewrite A; simpl; use_tests; reflexivity.
  - destruct (quotedString_ok "`" QuotedIdentifier ErrorBackQuoteIsNotClosed buf p
                ltac:(lia)) as (t0 & p0 & Hq & _ & [(A & _)|(A & _)]);
      rewrite Hq in H; inversion H; subst; rewrite A; simpl; use_tests;
      rewrite ?orb_true_r; reflexivity.
  - destruct (multilineComment_ok buf p (p + 1 + 1))
      as (t0 & p0 & Hm & _ & [(A & _)|(A & _)]);
      rewrite Hm in H; inversion H; subst; rewrite A; simpl; use_tests;
      rewrite ?orb_true_r; reflexivity.
Qed.

Lemma nextToken_inv (lx : Lexer) (t : Token) (lx' : Lexer) :
  nextToken lx = Some (t, lx') ->
  nextToken_at (input lx) (pos lx) = Some (t, pos lx') /\ input lx' = input lx.
Proof.
  unfold nextToken. intros H.
  destruct (nextToken_at (input lx) (pos lx)) as [[t0 p0]|]; [|discriminate].
  inversion H; subst. split; reflexivity.
Qed.

Lemma eqb_true (c d : ascii) : (c =? d)%char = true -> c = d.
Proof. apply Ascii.eqb_eq. Qed.

Lemma word_start_dispatch (c : ascii) :
  word_start c = true ->
  (c =? " ")%char || (c =? "009")%char || (c =? "010")%char
  || (c =? "013")%char || (c =? "012")%char || (c =? "011")%char = false
  /\ isWordCharASCII c = true.
Proof.
  destruct c as [[] [] [] [] [] [] [] []]; vm_compute; intros H;
    try discriminate H; split; reflexivity.
Qed.

Lemma nextToken_at_whitespace (buf : buffer) (p : Z) :
  p < buf_end buf ->
  isWhitespaceASCII (byte_at buf p) = true ->
  nextToken_at buf p
  = Some (Token_range Whitespace p (skip_while isWhitespaceASCII buf (p + 1)),
          skip_while isWhitespaceASCII buf (p + 1)).
Proof.
  intros Hp Hws. unfold nextToken_at. cbv zeta.
  replace (p >=? buf_end buf) with false by lia.
  unfold isWhitespaceASCII in Hws. rewrite Hws. reflexivity.
Qed.

Lemma nextToken_at_word_start (buf : buffer) (p : Z) :
  p < buf_end buf ->
  word_start (byte_at buf p) = true ->
  nextToken_at buf p
  = if (p >? 0) && isWordCharASCII (byte_at buf (p - 1))
    then Some (Token_sized ErrorWordWithoutWhitespace p 1, p)
    else Some (Token_range BareWord p (skip_while isWordCharASCII buf (p + 1)),
               skip_while isWordCharASCII buf (p + 1)).
Proof.
  intros Hp Hw. unfold nextToken_at. cbv zeta.
  replace (p >=? buf_end buf) with false by lia.
  destruct (word_start_dispatch (byte_at buf p) Hw) as [Hws _].
  rewrite Hws. unfold word_start in Hw. rewrite Hw. reflexivity.
Qed.

Lemma skip_digits_exit (buf : buffer) (p : Z) :
  no_digit_at buf (skip_while isNumericASCII buf p).
Proof.
  intros Hq. pose proof (skip_while_exit isNumericASCII buf p) as He.
  cbv zeta in He. apply andb_false_iff in He. destruct He as [He|He]; [lia|exact He].
Qed.

Lemma decimal_point_exit (buf : buffer) (p : Z) :
  no_digit_at buf p -> no_digit_at buf (decimal_point buf p).
Proof.
  intros Hn. unfold decimal_point.
  destruct ((p <? buf_end buf) && (byte_at buf p =? ".")%char);
    [apply skip_digits_exit|exact Hn].
Qed.

Lemma exponentation_exit (buf : buffer) (p : Z) :
  no_digit_at buf p -> no_digit_at buf (exponentation buf p).
Proof.
  intros Hn. unfold exponentation.
  destruct ((p + 1 <? buf_end buf)
            && ((byte_at buf p =? "e")%char || (byte_at buf p =? "p")%char));
    [apply skip_digits_exit|exact Hn].
Qed.

(** X1: the kind of a token tells how it begins: a token that is not
    [EndOfStream] begins at the cursor, inside the buffer, and the byte there
    is one of the bytes that select the branch of the switch returning that
    kind; [Error] is returned only at a byte without a case label. *)
Theorem kind_tells_first_byte (lx : Lexer) (t : Token) (lx' : Lexer) :
  0 <= pos lx ->
  nextToken lx = Some (t, lx') ->
  type t <> EndOfStream ->
  begin t = pos lx /\ begin t < Lexer_end lx
  /\ first_byte (type t) (byte_at (input lx) (begin t)) = true.
Proof.
  intros Hp H Hne. apply nextToken_inv in H. destruct H as [H _].
  destruct (nextToken_at_first_byte _ _ _ _ Hp H Hne) as [Hlt Hfirst].
  pose proof (nextToken_at_inv _ _ _ _ Hp H) as Hshape.
  assert (Hb : begin t = pos lx).
  { unfold token_shape in Hshape. destruct (type t); try contradiction; lia. }
  rewrite Hb. unfold Lexer_end. auto.
Qed.

Lemma kind_tells_first_byte_witness :
  first_byte NotEquals (byte_at (list_ascii_of_string "1 <> 2") 2) = true.
Proof.
  apply (kind_tells_first_byte (mkLexer (list_ascii_of_string "1 <> 2") 2)
           (Token_range NotEquals 2 4) (mkLexer (list_ascii_of_string "1 <> 2") 4));
    [simpl; lia | reflexivity | discriminate].
Defined.

(** X2: [EndOfStream] is returned exactly when the cursor is at the end of
    the buffer; its range is then the empty range at the end and the lexer is
    left as it was, so every later call returns it again. *)
Theorem EndOfStream_exactly_at_the_end (lx : Lexer) (t : Token) (lx' : Lexer) :
  0 <= pos lx <= Lexer_end lx ->
  nextToken lx = Some (t, lx') ->
  (type t = EndOfStream <-> pos lx = Lexer_end lx)
  /\ (type t = EndOfStream ->
      begin t = Lexer_end lx /\ end_ t = Lexer_end lx
      /\ lx' = lx /\ nextToken lx' = Some (t, lx')).
Proof.
  intros Hp H. pose proof H as Hcall.
  apply nextToken_inv in H. destruct H as [H Hin].
  pose proof (nextToken_at_inv _ _ _ _ (proj1 Hp) H) as Hshape.
  unfold Lexer_end in *. unfold token_shape in Hshape.
  assert (Hiff : type t = EndOfStream <-> pos lx = buf_end (input lx)).
  { split.
    - intros Ht. rewrite Ht in Hshape. lia.
    - intros He. destruct (type t); try reflexivity; lia. }
  split; [exact Hiff|].
  intros Ht. rewrite Ht in Hshape.
  assert (Hlx : lx' = lx).
  { destruct lx as [b q], lx' as [b' q']; simpl in *. subst b'. f_equal. lia. }
  repeat split; try lia; try exact Hlx.
  rewrite Hlx in Hcall |- *. exact Hcall.
Qed.

Lemma EndOfStream_exactly_at_the_end_witness :
  type (Token_sized EndOfStream 8 0) = EndOfStream
  <-> pos (mkLexer (list_ascii_of_string "SELECT 1") 8)
      = Lexer_end (mkLexer (list_ascii_of_string "SELECT 1") 8).
Proof.
  apply (EndOfStream_exactly_at_the_end
           (mkLexer (list_ascii_of_string "SELECT 1") 8)
           (Token_sized EndOfStream 8 0)
           (mkLexer (list_ascii_of_string "SELECT 1") 8));
    [vm_compute; split; discriminate | reflexivity].
Defined.

(** X3: a call keeps the cursor inside the buffer and never moves it back;
    the cursor stays where it was only when the token is [EndOfStream] or
    [ErrorWordWithoutWhitespace], and every other call moves it forward. *)
Theorem cursor_moves_forward_within_buffer (lx : Lexer) (t : Token) (lx' : Lexer) :
  0 <= pos lx <= Lexer_end lx ->
  nextToken lx = Some (t, lx') ->
  input lx' = input lx
  /\ pos lx <= pos lx' <= Lexer_end lx'
  /\ (pos lx' = pos lx ->
      type t = EndOfStream \/ type t = ErrorWordWithoutWhitespace).
Proof.
  intros Hp H. apply nextToken_inv in H. destruct H as [H Hin].
  pose proof (nextToken_at_inv _ _ _ _ (proj1 Hp) H) as Hshape.
  unfold Lexer_end in *. rewrite Hin. unfold token_shape in Hshape.
  split; [reflexivity|].
  destruct (type t); (split; [lia|]); intros He; auto; lia.
Qed.

Lemma cursor_moves_forward_within_buffer_witness :
  pos (mkLexer (list_ascii_of_string "a.b") 0)
  <= pos (mkLexer (list_ascii_of_string "a.b") 1)
  <= Lexer_end (mkLexer (list_ascii_of_string "a.b") 1).
Proof.
  apply (cursor_moves_forward_within_buffer
           (mkLexer (list_ascii_of_string "a.b") 0) (Token_range BareWord 0 1)
           (mkLexer (list_ascii_of_string "a.b") 1));
    [vm_compute; split; discriminate | reflexivity].
Defined.

(** X4: the range of a token begins at the cursor and lies inside the
    buffer; it is empty only for [EndOfStream]. *)
Theorem token_range_within_buffer (lx : Lexer) (t : Token) (lx' : Lexer) :
  0 <= pos lx <= Lexer_end lx ->
  nextToken lx = Some (t, lx') ->
  begin t = pos lx
  /\ begin t <= end_ t <= Lexer_end lx
  /\ (type t <> EndOfStream -> 0 < size t).
Proof.
  intros Hp H. apply nextToken_inv in H. destruct H as [H Hin].
  pose proof (nextToken_at_inv _ _ _ _ (proj1 Hp) H) as Hshape.
  unfold Lexer_end, size in *. unfold token_shape in Hshape.
  destruct (type t); (split; [lia|]); (split; [lia|]); intros Hne;
    try contradiction; lia.
Qed.

Lemma token_range_within_buffer_witness :
  begin (Token_range Number 7 8) = 7
  /\ begin (Token_range Number 7 8) <= end_ (Token_range Number 7 8) <= 8
  /\ (type (Token_range Number 7 8) <> EndOfStream -> 0 < size (Token_range Number 7 8)).
Proof.
  apply (token_range_within_buffer
           (mkLexer (list_ascii_of_string "SELECT 1") 7) (Token_range Number 7 8)
           (mkLexer (list_ascii_of_string "SELECT 1") 8));
    [vm_compute; split; discriminate | reflexivity].
Defined.

(** ** Maximal runs *)

(** X5: a [Whitespace] token is a maximal run of whitespace bytes: every byte
    of it is one, the byte after it (when there is one) is not, and so the
    token after a [Whitespace] is never a [Whitespace]. *)
Theorem whitespace_is_a_maximal_run (lx : Lexer) (t : Token) (lx' : Lexer) :
  0 <= pos lx ->
  nextToken lx = Some (t, lx') ->
  type t = Whitespace ->
  (forall i, begin t <= i < end_ t -> isWhitespaceASCII (byte_at (input lx) i) = true)
  /\ (end_ t < Lexer_end lx -> isWhitespaceASCII (byte_at (input lx) (end_ t)) = false)
  /\ pos lx' = end_ t
  /\ (forall t2 lx2, nextToken lx' = Some (t2, lx2) -> type t2 <> Whitespace).
Proof.
  intros Hp H Ht. apply nextToken_inv in H. destruct H as [H Hin].
  assert (Hne : type t <> EndOfStream) by (rewrite Ht; discriminate).
  destruct (nextToken_at_first_byte _ _ _ _ Hp H Hne) as [Hlt Hfirst].
  rewrite Ht in Hfirst. simpl in Hfirst.
  rewrite (nextToken_at_whitespace _ _ Hlt Hfirst) in H.
  inversion H as [[Htok Hpos]]. clear H. simpl.
  set (q := skip_while isWhitespaceASCII (input lx) (pos lx + 1)) in *.
  assert (Hexit : q < buf_end (input lx) ->
                  isWhitespaceASCII (byte_at (input lx) q) = false).
  { intros Hq. pose proof (skip_while_exit isWhitespaceASCII (input lx) (pos lx + 1)) as He.
    cbv zeta in He. fold q in He.
    apply andb_false_iff in He. destruct He as [He|He]; [lia|exact He]. }
  split; [|split; [exact Hexit|split; [reflexivity|]]].
  - intros i Hi. destruct (Z.eq_dec i (pos lx)) as [->|Hn]; [exact Hfirst|].
    apply (skip_while_all isWhitespaceASCII (input lx) (pos lx + 1)). fold q. lia.
  - intros t2 lx2 H2 Ht2. apply nextToken_inv in H2. destruct H2 as [H2 _].
    rewrite Hin, <- Hpos in H2.
    pose proof (skip_while_ge isWhitespaceASCII (input lx) (pos lx + 1)) as Hge.
    fold q in Hge.
    assert (Hq0 : 0 <= q) by lia.
    assert (Hne2 : type t2 <> EndOfStream) by (rewrite Ht2; discriminate).
    destruct (nextToken_at_first_byte _ _ _ _ Hq0 H2 Hne2) as [Hlt2 Hf2].
    rewrite Ht2 in Hf2. simpl in Hf2. rewrite (Hexit Hlt2) in Hf2. discriminate.
Qed.

Lemma whitespace_is_a_maximal_run_witness :
  (forall i, 1 <= i < 4 ->
     isWhitespaceASCII (byte_at (list_ascii_of_string "a   b") i) = true)
  /\ (4 < 5 -> isWhitespaceASCII (byte_at (list_ascii_of_string "a   b") 4) = false)
  /\ 4 = 4
  /\ (forall t2 lx2,
        nextToken (mkLexer (list_ascii_of_string "a   b") 4) = Some (t2, lx2) ->
        type t2 <> Whitespace).
Proof.
  apply (whitespace_is_a_maximal_run
           (mkLexer (list_ascii_of_string "a   b") 1) (Token_range Whitespace 1 4)
           (mkLexer (list_ascii_of_string "a   b") 4));
    [simpl; lia | reflexivity | reflexivity].
Defined.

(** X6: a [BareWord] is a maximal run of word characters on both sides: it
    begins with a letter or an underscore, all its bytes are letters, digits or
    underscores, the byte after it is not one and the byte before it is not
    one either (a letter right after a word character is reported as
    [ErrorWordWithoutWhitespace] instead). *)
Theorem bare_word_is_a_maximal_run (lx : Lexer) (t : Token) (lx' : Lexer) :
  0 <= pos lx ->
  nextToken lx = Some (t, lx') ->
  type t = BareWord ->
  word_start (byte_at (input lx) (begin t)) = true
  /\ (forall i, begin t <= i < end_ t -> isWordCharASCII (byte_at (input lx) i) = true)
  /\ (end_ t < Lexer_end lx -> isWordCharASCII (byte_at (input lx) (end_ t)) = false)
  /\ (begin t = 0 \/ isWordCharASCII (byte_at (input lx) (begin t - 1)) = false)
  /\ pos lx' = end_ t.
Proof.
  intros Hp H Ht. apply nextToken_inv in H. destruct H as [H Hin].
  assert (Hne : type t <> EndOfStream) by (rewrite Ht; discriminate).
  destruct (nextToken_at_first_byte _ _ _ _ Hp H Hne) as [Hlt Hfirst].
  rewrite Ht in Hfirst. simpl in Hfirst.
  rewrite (nextToken_at_word_start _ _ Hlt Hfirst) in H.
  destruct ((pos lx >? 0) && isWordCharASCII (byte_at (input lx) (pos lx - 1))) eqn:Hprev;
    inversion H as [[Htok Hpos]]; clear H.
  { rewrite <- Htok in Ht. discriminate. }
  simpl.
  set (q := skip_while isWordCharASCII (input lx) (pos lx + 1)) in *.
  split; [exact Hfirst|]. split; [|split; [|split; [|reflexivity]]].
  - intros i Hi. destruct (Z.eq_dec i (pos lx)) as [->|Hn].
    + apply (word_start_dispatch _ Hfirst).
    + apply (skip_while_all isWordCharASCII (input lx) (pos lx + 1)). fold q. lia.
  - intros Hq. pose proof (skip_while_exit isWordCharASCII (input lx) (pos lx + 1)) as He.
    cbv zeta in He. fold q in He. unfold Lexer_end in Hq.
    apply andb_false_iff in He. destruct He as [He|He]; [lia|exact He].
  - apply andb_false_iff in Hprev. destruct Hprev as [Hz|Hw]; [left; lia|right; exact Hw].
Qed.

Lemma bare_word_is_a_maximal_run_witness :
  word_start (byte_at (list_ascii_of_string "x1 y") 0) = true
  /\ (forall i, 0 <= i < 2 ->
        isWordCharASCII (byte_at (list_ascii_of_string "x1 y") i) = true)
  /\ (2 < 4 -> isWordCharASCII (byte_at (list_ascii_of_string "x1 y") 2) = false)
  /\ (0 = 0 \/ isWordCharASCII (byte_at (list_ascii_of_string "x1 y") (0 - 1)) = false)
  /\ 2 = 2.
Proof.
  apply (bare_word_is_a_maximal_run
           (mkLexer (list_ascii_of_string "x1 y") 0) (Token_range BareWord 0 2)
           (mkLexer (list_ascii_of_string "x1 y") 2));
    [simpl; lia | reflexivity | reflexivity].
Defined.

(** X7: a [Number] begins with a decimal digit or a dot, and where it ends no
    decimal digit follows: the digits after the last part of the number that
    was recognised are all part of the token. *)
Theorem number_is_followed_by_no_digit (lx : Lexer) (t : Token) (lx' : Lexer) :
  0 <= pos lx ->
  nextToken lx = Some (t, lx') ->
  type t = Number ->
  (isNumericASCII (byte_at (input lx) (begin t)) = true
   \/ byte_at (input lx) (begin t) = "."%char)
  /\ (end_ t < Lexer_end lx -> isNumericASCII (byte_at (input lx) (end_ t)) = false)
  /\ pos lx' = end_ t.
Proof.
  intros Hp H Ht. apply nextToken_inv in H. destruct H as [H Hin].
  assert (Hne : type t <> EndOfStream) by (rewrite Ht; discriminate).
  destruct (nextToken_at_first_byte _ _ _ _ Hp H Hne) as [Hlt Hfirst].
  rewrite Ht in Hfirst. simpl in Hfirst.
  apply orb_true_iff in Hfirst. destruct Hfirst as [Hdigit|Hdot].
  - rewrite (nextToken_at_digit _ _ Hlt Hdigit) in H.
    inversion H as [[Htok Hpos]]. clear H. simpl.
    split; [left; exact Hdigit|]. split; [|reflexivity].
    apply exponentation_exit. unfold mantissa.
    apply decimal_point_exit, skip_digits_exit.
  - apply eqb_true in Hdot. revert H. unfold nextToken_at. rewrite Hdot.
    replace (pos lx >=? buf_end (input lx)) with false by lia. simpl.
    destruct (_ && _); intros H; inversion H as [[Htok Hpos]]; clear H.
    { rewrite <- Htok in Ht. discriminate. }
    simpl. split; [right; exact Hdot|]. split; [|reflexivity].
    rewrite exponentation_after_dot_eq.
    apply exponentation_exit, skip_digits_exit.
Qed.

Lemma number_is_followed_by_no_digit_witness :
  (isNumericASCII (byte_at (list_ascii_of_string "1.5e3+2") 0) = true
   \/ byte_at (list_ascii_of_string "1.5e3+2") 0 = "."%char)
  /\ (5 < 7 -> isNumericASCII (byte_at (list_ascii_of_string "1.5e3+2") 5) = false)
  /\ 5 = 5.
Proof.
  apply (number_is_followed_by_no_digit
           (mkLexer (list_ascii_of_string "1.5e3+2") 0) (Token_range Number 0 5)
           (mkLexer (list_ascii_of_string "1.5e3+2") 5));
    [simpl; lia | reflexivity | reflexivity].
Defined.

(** ** Quoted tokens *)

Lemma find_first_symbols_unique (symbols : list ascii) (buf : buffer) (p r : Z) :
  0 <= p <= r -> r < buf_end buf ->
  (forall i, p <= i < r -> existsb (Ascii.eqb (byte_at buf i)) symbols = false) ->
  existsb (Ascii.eqb (byte_at buf r)) symbols = true ->
  find_first_symbols symbols buf p = r.
Proof.
  intros Hp Hr Hbefore Hat.
  destruct (find_first_symbols_spec symbols buf p ltac:(lia)) as (Hb & Hno & Hyes).
  set (r' := find_first_symbols symbols buf p) in *.
  destruct (Z.lt_trichotomy r' r) as [Hlt|[Heq|Hgt]]; [|exact Heq|].
  - rewrite (Hbefore r') in Hyes by lia. specialize (Hyes ltac:(lia)). discriminate.
  - rewrite (Hno r) in Hat by lia. discriminate.
Qed.

(** A lexeme returned with the success kind ends with the quote byte. *)
Lemma quotedString_body_closing (quote : ascii) (success_token error_token : TokenType)
    (buf : buffer) (token_begin p : Z) :
  0 <= p ->
  match quotedString_body quote success_token error_token buf token_begin p with
  | Return t p' =>
      (t = Token_range success_token token_begin p'
       /\ p < p' /\ byte_at buf (p' - 1) = quote)
      \/ t = Token_range error_token token_begin (buf_end buf)
  | Continue p' => p + 2 <= p'
  | Unreachable => True
  end.
Proof.
  intros Hp. unfold quotedString_body.
  destruct (find_first_symbols_spec [quote; backslash] buf p Hp) as (Hr & _).
  set (r := find_first_symbols [quote; backslash] buf p) in *. cbv zeta.
  destruct (r >=? buf_end buf); [right; reflexivity|].
  destruct (byte_at buf r =? quote)%char eqn:Hq.
  - destruct (_ && _); [lia|]. left.
    replace (r + 1 - 1) with r by lia. apply eqb_true in Hq. repeat split; lia || auto.
  - destruct (byte_at buf r =? backslash)%char; [|exact I].
    destruct (r + 1 >=? buf_end buf); [right; reflexivity|lia].
Qed.

Lemma quotedString_loop_closing (quote : ascii) (success_token error_token : TokenType)
    (buf : buffer) (token_begin : Z) (t : Token) (p' : Z) :
  forall (fuel : nat) (p : Z),
    0 <= p ->
    quotedString_loop fuel quote success_token error_token buf token_begin p
    = Some (t, p') ->
    (t = Token_range success_token token_begin p'
     /\ p < p' /\ byte_at buf (p' - 1) = quote)
    \/ t = Token_range error_token token_begin (buf_end buf).
Proof.
  induction fuel as [|fuel IH]; intros p Hp H; [discriminate|].
  simpl in H.
  pose proof (quotedString_body_closing quote success_token error_token buf
                token_begin p Hp) as Hb.
  destruct (quotedString_body quote success_token error_token buf token_begin p)
    as [t0 p0|p0|]; [| |discriminate].
  - inversion H; subst. exact Hb.
  - destruct (IH p0 ltac:(lia) H) as [(A & B & C)|A]; [left|right; exact A].
    repeat split; lia || assumption.
Qed.

Lemma nextToken_at_quote (buf : buffer) (p : Z) :
  p < buf_end buf ->
  is_quote (byte_at buf p) = true ->
  nextToken_at buf p
  = quotedString (byte_at buf p) (quote_success (byte_at buf p))
      (quote_error (byte_at buf p)) buf p p.
Proof.
  intros Hp Hq. unfold nextToken_at.
  replace (p >=? buf_end buf) with false by lia.
  unfold is_quote in Hq.
  apply orb_true_iff in Hq. destruct Hq as [Hq|Hq];
    [apply orb_true_iff in Hq; destruct Hq as [Hq|Hq]|];
    apply eqb_true in Hq; rewrite Hq; reflexivity.
Qed.

Lemma quote_kinds_differ (quote : ascii) : quote_success quote <> quote_error quote.
Proof.
  unfold quote_success, quote_error.
  destruct (quote =? "'")%char; [discriminate|].
  destruct (quote =? "034")%char; discriminate.
Qed.

(** What the call at a quote byte returns: a closed lexeme that ends with
    the quote byte, or the error token for the rest of the buffer. *)
Lemma nextToken_at_quote_result (buf : buffer) (p : Z) :
  0 <= p < buf_end buf ->
  is_quote (byte_at buf p) = true ->
  exists t p',
    nextToken_at buf p = Some (t, p')
    /\ ((t = Token_range (quote_success (byte_at buf p)) p p'
         /\ p + 2 <= p' <= buf_end buf
         /\ byte_at buf (p' - 1) = byte_at buf p)
        \/ (t = Token_range (quote_error (byte_at buf p)) p (buf_end buf)
            /\ p' = buf_end buf)).
Proof.
  intros Hp Hq. rewrite (nextToken_at_quote buf p (proj2 Hp) Hq).
  set (quote := byte_at buf p).
  destruct (quotedString_ok quote (quote_success quote) (quote_error quote) buf p Hp)
    as (t & p' & Hcall & Hbegin & Hkind).
  exists t, p'. split; [exact Hcall|].
  unfold quotedString in Hcall.
  apply quotedString_loop_closing in Hcall; [|lia].
  destruct Hcall as [(A & B & C)|A].
  - left. split; [exact A|]. split; [|exact C].
    destruct Hkind as [(K1 & K2 & K3)|(K1 & K2 & K3)]; [lia|].
    rewrite A in K1. simpl in K1. destruct (quote_kinds_differ quote K1).
  - right. split; [exact A|].
    destruct Hkind as [(K1 & K2 & K3)|(K1 & K2 & K3)]; [|exact K3].
    rewrite A in K1. simpl in K1. symmetry in K1. destruct (quote_kinds_differ quote K1).
Qed.

Lemma first_byte_quoted (ty : TokenType) (c : ascii) :
  ty = StringLiteral \/ ty = QuotedIdentifier ->
  first_byte ty c = true ->
  is_quote c = true /\ quote_success c = ty.
Proof.
  unfold is_quote, quote_success.
  intros [-> | ->]; simpl; intros H.
  - rewrite H. split; reflexivity.
  - apply orb_true_iff in H. destruct H as [H|H]; apply eqb_true in H; subst c;
      split; reflexivity.
Qed.

(** X8: a [StringLiteral] begins with a single quote and a [QuotedIdentifier]
    with a double quote or a back quote; the token is at least two bytes long
    and its last byte is the quote byte it begins with. *)
Theorem quoted_token_is_delimited (lx : Lexer) (t : Token) (lx' : Lexer) :
  0 <= pos lx ->
  nextToken lx = Some (t, lx') ->
  type t = StringLiteral \/ type t = QuotedIdentifier ->
  is_quote (byte_at (input lx) (begin t)) = true
  /\ quote_success (byte_at (input lx) (begin t)) = type t
  /\ begin t + 2 <= end_ t
  /\ byte_at (input lx) (end_ t - 1) = byte_at (input lx) (begin t)
  /\ pos lx' = end_ t.
Proof.
  intros Hp H Ht. apply nextToken_inv in H. destruct H as [H Hin].
  assert (Hne : type t <> EndOfStream) by (destruct Ht as [Ht|Ht]; rewrite Ht; discriminate).
  destruct (nextToken_at_first_byte _ _ _ _ Hp H Hne) as [Hlt Hfirst].
  destruct (first_byte_quoted _ _ Ht Hfirst) as [Hq Hs].
  destruct (nextToken_at_quote_result (input lx) (pos lx) ltac:(lia) Hq)
    as (t0 & p0 & Hcall & Hres).
  rewrite H in Hcall. inversion Hcall; subst t0 p0. clear Hcall.
  destruct Hres as [(A & B & C)|(A & B)].
  - rewrite A. simpl. rewrite A in Hs. simpl in Hs.
    repeat split; try assumption; try lia. 
  - exfalso. rewrite A in Hs. simpl in Hs.
    symmetry in Hs. exact (quote_kinds_differ _ (eq_sym Hs)).
Qed.

Lemma quoted_token_is_delimited_witness :
  is_quote (byte_at (list_ascii_of_string "`a\`b` c") 0) = true
  /\ quote_success (byte_at (list_ascii_of_string "`a\`b` c") 0) = QuotedIdentifier
  /\ 0 + 2 <= 6
  /\ byte_at (list_ascii_of_string "`a\`b` c") (6 - 1)
     = byte_at (list_ascii_of_string "`a\`b` c") 0
  /\ 6 = 6.
Proof.
  apply (quoted_token_is_delimited
           (mkLexer (list_ascii_of_string "`a\`b` c") 0)
           (Token_range QuotedIdentifier 0 6)
           (mkLexer (list_ascii_of_string "`a\`b` c") 6));
    [simpl; lia | reflexivity | right; reflexivity].
Defined.

(** X9: a quote that is never closed: when the quote byte at the cursor does
    not occur again in the rest of the buffer, the token is the error kind of
    that quote, it spans the rest of the buffer and the cursor is left at the
    end, whatever else (backslashes, other quotes) the rest holds. *)
Theorem quote_never_closed_is_an_error (buf : buffer) (p : Z) :
  0 <= p < buf_end buf ->
  is_quote (byte_at buf p) = true ->
  (forall i, p < i < buf_end buf -> byte_at buf i <> byte_at buf p) ->
  nextToken (mkLexer buf p)
  = Some (Token_range (quote_error (byte_at buf p)) p (buf_end buf),
          mkLexer buf (buf_end buf)).
Proof.
  intros Hp Hq Hnone.
  destruct (nextToken_at_quote_result buf p Hp Hq) as (t & p' & Hcall & Hres).
  rewrite nextToken_mk, Hcall.
  destruct Hres as [(A & B & C)|(A & B)].
  - exfalso. apply (Hnone (p' - 1)); [lia|exact C].
  - rewrite A, B. reflexivity.
Qed.

Lemma quote_never_closed_is_an_error_witness :
  nextToken (mkLexer (list_ascii_of_string "x = 'a\n `b`") 4)
  = Some (Token_range ErrorSingleQuoteIsNotClosed 4 12,
          mkLexer (list_ascii_of_string "x = 'a\n `b`") 12).
Proof.
  apply (quote_never_closed_is_an_error (list_ascii_of_string "x = 'a\n `b`") 4).
  - vm_compute. split; [discriminate|reflexivity].
  - reflexivity.
  - intros i Hi.
    assert (Hcases : i = 5 \/ i = 6 \/ i = 7 \/ i = 8 \/ i = 9 \/ i = 10 \/ i = 11)
      by (change (buf_end (list_ascii_of_string "x = 'a\n `b`")) with 12 in Hi; lia).
    destruct Hcases as [-> | [-> | [-> | [-> | [-> | [-> | ->]]]]]];
      vm_compute; discriminate.
Defined.

(** X10: a quoted span without escapes: when the bytes after the opening
    quote hold neither that quote nor a backslash up to a quote byte at [r]
    that is not followed by a second one, the token is the success kind of the
    quote with the range from the opening to the closing quote, both
    included. *)
Theorem plain_quoted_span (buf : buffer) (p r : Z) :
  0 <= p < r -> r < buf_end buf ->
  is_quote (byte_at buf p) = true ->
  (forall i, p < i < r ->
     byte_at buf i <> byte_at buf p /\ byte_at buf i <> backslash) ->
  byte_at buf r = byte_at buf p ->
  (r + 1 < buf_end buf -> byte_at buf (r + 1) <> byte_at buf p) ->
  nextToken (mkLexer buf p)
  = Some (Token_range (quote_success (byte_at buf p)) p (r + 1), mkLexer buf (r + 1)).
Proof.
  intros Hp Hr Hq Hbody Hclose Hnext.
  rewrite nextToken_mk, (nextToken_at_quote buf p ltac:(lia) Hq).
  set (quote := byte_at buf p) in *.
  assert (Hfind : find_first_symbols [quote; backslash] buf (p + 1) = r).
  { apply find_first_symbols_unique; try lia.
    - intros i Hi. destruct (Hbody i ltac:(lia)) as [H1 H2].
      simpl. apply Ascii.eqb_neq in H1, H2. rewrite H1, H2. reflexivity.
    - simpl. rewrite Hclose, Ascii.eqb_refl. reflexivity. }
  unfold quotedString. simpl quotedString_loop.
  unfold quotedString_body. rewrite Hfind. cbv zeta.
  replace (r >=? buf_end buf) with false by lia.
  rewrite Hclose, Ascii.eqb_refl.
  destruct ((r + 1 <? buf_end buf) && (byte_at buf (r + 1) =? quote)%char) eqn:Hc;
    [|reflexivity].
  apply andb_true_iff in Hc. destruct Hc as [Hlt Hsame].
  apply eqb_true in Hsame. destruct (Hnext ltac:(lia) Hsame).
Qed.

Lemma plain_quoted_span_witness :
  nextToken (mkLexer (list_ascii_of_string "f('ab')") 2)
  = Some (Token_range StringLiteral 2 (5 + 1),
          mkLexer (list_ascii_of_string "f('ab')") (5 + 1)).
Proof.
  apply (plain_quoted_span (list_ascii_of_string "f('ab')") 2 5).
  - lia.
  - reflexivity.
  - reflexivity.
  - intros i Hi. assert (Hcases : i = 3 \/ i = 4) by lia.
    destruct Hcases as [-> | ->]; vm_compute; split; discriminate.
  - reflexivity.
  - intros _. vm_compute. discriminate.
Defined.

(** ** Multiline comments *)

Lemma multilineComment_loop_first_close (buf : buffer) (token_begin : Z)
    (t : Token) (p' : Z) :
  forall (fuel : nat) (p : Z),
    multilineComment_loop fuel buf token_begin p = Some (t, p') ->
    (t = Token_range Comment token_begin p'
     /\ p + 2 <= p' <= buf_end buf
     /\ close_at buf (p' - 2)
     /\ (forall i, p <= i < p' - 2 -> ~ close_at buf i))
    \/ (t = Token_range ErrorMultilineCommentIsNotClosed token_begin (buf_end buf)
        /\ p <= p'
        /\ (forall i, p <= i <= buf_end buf - 2 -> ~ close_at buf i)).
Proof.
  induction fuel as [|fuel IH]; intros p H; [discriminate|].
  simpl in H.
  destruct (Z.leb_spec p (buf_end buf - 2)) as [Hle|Hgt].
  - destruct ((byte_at buf p =? "*")%char && (byte_at buf (p + 1) =? "/")%char) eqn:Hc.
    + inversion H; subst. left.
      apply andb_true_iff in Hc. destruct Hc as [H1 H2].
      apply eqb_true in H1, H2.
      split; [reflexivity|]. split; [lia|]. split.
      * unfold close_at. replace (p + 2 - 2) with p by lia.
        replace (p + 2 - 2 + 1) with (p + 1) by lia. auto.
      * intros i Hi. lia.
    + assert (Hno : ~ close_at buf p).
      { intros [H1 H2]. rewrite H1, H2 in Hc. discriminate. }
      destruct (IH (p + 1) H) as [(A & B & C & D)|(A & B & C)]; [left|right].
      * split; [exact A|]. split; [lia|]. split; [exact C|].
        intros i Hi. destruct (Z.eq_dec i p) as [->|Hn]; [exact Hno|apply D; lia].
      * split; [exact A|]. split; [lia|].
        intros i Hi. destruct (Z.eq_dec i p) as [->|Hn]; [exact Hno|apply C; lia].
  - inversion H; subst. right. split; [reflexivity|]. split; [lia|]. intros i Hi. lia.
Qed.

(** X11: a multiline comment ends at the first [*/] that begins after the
    two bytes of its opening: the token is a [Comment] whose last two bytes
    are that [*/], or, when there is none, the error token for the rest of the
    buffer.  The [*] of the opening is not looked at again and a second
    opening inside the comment plays no role. *)
Theorem multiline_comment_ends_at_first_close (buf : buffer) (p : Z) :
  0 <= p -> p + 1 < buf_end buf ->
  byte_at buf p = "/"%char -> byte_at buf (p + 1) = "*"%char ->
  exists t p',
    nextToken (mkLexer buf p) = Some (t, mkLexer buf p')
    /\ ((t = Token_range Comment p p'
         /\ p + 4 <= p' <= buf_end buf
         /\ close_at buf (p' - 2)
         /\ (forall i, p + 2 <= i < p' - 2 -> ~ close_at buf i))
        \/ (t = Token_range ErrorMultilineCommentIsNotClosed p (buf_end buf)
            /\ (forall i, p + 2 <= i <= buf_end buf - 2 -> ~ close_at buf i))).
Proof.
  intros Hp Hlt Hslash Hstar.
  assert (Hcall : nextToken_at buf p = multilineComment buf p (p + 2)).
  { unfold nextToken_at.
    replace (p >=? buf_end buf) with false by lia.
    rewrite Hslash. simpl. rewrite Hstar. simpl.
    replace (p + 1 <? buf_end buf) with true by lia. simpl.
    replace (p + 1 + 1) with (p + 2) by lia. reflexivity. }
  destruct (multilineComment_ok buf p (p + 2)) as (t & p' & Hm & _).
  exists t, p'. rewrite nextToken_mk, Hcall, Hm. split; [reflexivity|].
  unfold multilineComment in Hm.
  destruct (multilineComment_loop_first_close buf p t p' _ _ Hm)
    as [(A & B & C & D)|(A & B & C)]; [left|right].
  - split; [exact A|]. split; [lia|]. split; [exact C|exact D].
  - split; assumption.
Qed.

Lemma multiline_comment_ends_at_first_close_witness :
  exists t p',
    nextToken (mkLexer (list_ascii_of_string "/*/ /* */ */") 0)
    = Some (t, mkLexer (list_ascii_of_string "/*/ /* */ */") p')
    /\ ((t = Token_range Comment 0 p'
         /\ 0 + 4 <= p' <= 12
         /\ close_at (list_ascii_of_string "/*/ /* */ */") (p' - 2)
         /\ (forall i, 0 + 2 <= i < p' - 2 ->
               ~ close_at (list_ascii_of_string "/*/ /* */ */") i))
        \/ (t = Token_range ErrorMultilineCommentIsNotClosed 0 12
            /\ (forall i, 0 + 2 <= i <= 12 - 2 ->
                  ~ close_at (list_ascii_of_string "/*/ /* */ */") i))).
Proof.
  apply (multiline_comment_ends_at_first_close
           (list_ascii_of_string "/*/ /* */ */") 0);
    [lia | reflexivity | reflexivity | reflexivity].
Defined.

(** ** The text of a token *)

Lemma skipn_byte_at (buf : buffer) (p : Z) :
  0 <= p < buf_end buf ->
  skipn (Z.to_nat p) buf = byte_at buf p :: skipn (Z.to_nat (p + 1)) buf.
Proof.
  intros Hp. unfold byte_at, buf_end in *.
  destruct (Z.ltb_spec p 0); [lia|].
  replace (Z.to_nat (p + 1)) with (S (Z.to_nat p)) by lia.
  assert (Hn : (Z.to_nat p < List.length buf)%nat) by lia.
  revert Hn. generalize (Z.to_nat p). clear.
  intros n. revert buf.
  induction n as [|n IH]; intros [|b buf] Hn; simpl in *; try lia; [reflexivity|].
  apply IH. lia.
Qed.

Lemma lexeme_one (buf : buffer) (ty : TokenType) (p : Z) :
  0 <= p < buf_end buf ->
  lexeme buf (Token_range ty p (p + 1)) = [byte_at buf p].
Proof.
  intros Hp. unfold lexeme, size. simpl.
  replace (Z.to_nat (p + 1 - p)) with 1%nat by lia.
  rewrite (skipn_byte_at buf p Hp). reflexivity.
Qed.

Lemma lexeme_two (buf : buffer) (ty : TokenType) (p : Z) :
  0 <= p -> p + 1 < buf_end buf ->
  lexeme buf (Token_range ty p (p + 1 + 1)) = [byte_at buf p; byte_at buf (p + 1)].
Proof.
  intros Hp Hlt. unfold lexeme, size. simpl.
  replace (Z.to_nat (p + 1 + 1 - p)) with 2%nat by lia.
  rewrite (skipn_byte_at buf p ltac:(lia)), (skipn_byte_at buf (p + 1) ltac:(lia)).
  reflexivity.
Qed.

Ltac tests_to_facts :=
  repeat match goal with
  | H : _ && _ = true |- _ => apply andb_true_iff in H; destruct H
  | H : (_ =? _)%char = true |- _ => apply eqb_true in H
  | H : (_ <? _) = true |- _ => apply Z.ltb_lt in H
  end.

Lemma nextToken_at_spelling (buf : buffer) (p : Z) (t : Token) (p' : Z) :
  0 <= p -> nextToken_at buf p = Some (t, p') ->
  spellings (type t) <> [] ->
  In (lexeme buf t) (map list_ascii_of_string (spellings (type t))).
Proof.
  intros Hp H Hsp.
  destruct (Z.ltb_spec p (buf_end buf)) as [Hlt|Hge].
  2:{ exfalso. apply Hsp. unfold nextToken_at in H.
      replace (p >=? buf_end buf) with true in H by lia.
      inversion H; subst. reflexivity. }
  revert H Hsp. unfold nextToken_at, commentUntilEndOfLine. cbv zeta.
  replace (p >=? buf_end buf) with false by lia.
  repeat split_branch; intros H Hsp;
    try (inversion H; subst; clear H; simpl in Hsp;
         solve [ exfalso; apply Hsp; reflexivity
               | tests_to_facts;
                 first [ rewrite lexeme_two by lia | rewrite lexeme_one by lia ];
                 repeat match goal with
                 | E : byte_at _ _ = _ |- _ => rewrite E; clear E
                 end;
                 simpl; tauto ]).
  - destruct (quotedString_ok "'" StringLiteral ErrorSingleQuoteIsNotClosed buf p
                ltac:(lia)) as (t0 & p0 & Hq & _ & [(A & _)|(A & _)]);
      rewrite Hq in H; inversion H; subst; rewrite A in Hsp; destruct (Hsp eq_refl).
  - destruct (quotedString_ok "034" QuotedIdentifier ErrorDoubleQuoteIsNotClosed buf p
                ltac:(lia)) as (t0 & p0 & Hq & _ & [(A & _)|(A & _)]);
      rewrite Hq in H; inversion H; subst; rewrite A in Hsp; destruct (Hsp eq_refl).
  - destruct (quotedString_ok "`" QuotedIdentifier ErrorBackQuoteIsNotClosed buf p
                ltac:(lia)) as (t0 & p0 & Hq & _ & [(A & _)|(A & _)]);
      rewrite Hq in H; inversion H; subst; rewrite A in Hsp; destruct (Hsp eq_refl).
  - destruct (multilineComment_ok buf p (p + 1 + 1))
      as (t0 & p0 & Hm & _ & [(A & _)|(A & _)]);
      rewrite Hm in H; inversion H; subst; rewrite A in Hsp; destruct (Hsp eq_refl).
Qed.

(** X12: for punctuation, operators and the error kinds of a lone [!] or
    [|], the kind fixes the text: the bytes in the range of the token are one
    of the spellings of its kind ([=] or [==] for [Equals], [!=] or [<>] for
    [NotEquals], [->] for [Arrow], and so on). *)
Theorem kind_fixes_the_text (lx : Lexer) (t : Token) (lx' : Lexer) :
  0 <= pos lx ->
  nextToken lx = Some (t, lx') ->
  spellings (type t) <> [] ->
  In (lexeme (input lx) t) (map list_ascii_of_string (spellings (type t))).
Proof.
  intros Hp H Hsp. apply nextToken_inv in H. destruct H as [H _].
  exact (nextToken_at_spelling _ _ _ _ Hp H Hsp).
Qed.

Lemma kind_fixes_the_text_witness :
  In (lexeme (list_ascii_of_string "a<>b") (Token_range NotEquals 1 3))
     (map list_ascii_of_string (spellings NotEquals)).
Proof.
  apply (kind_fixes_the_text (mkLexer (list_ascii_of_string "a<>b") 1)
           (Token_range NotEquals 1 3) (mkLexer (list_ascii_of_string "a<>b") 3));
    [simpl; lia | reflexivity | discriminate].
Defined.

(** ** Bytes without a case label *)

Lemma non_ascii_has_no_case_label (c : ascii) :
  (128 <= N_of_ascii c)%N -> has_case_label c = false.
Proof.
  destruct c as [[] [] [] [] [] [] [] []]; vm_compute; intros H;
    try reflexivity; exfalso; apply H; reflexivity.
Qed.

Lemma nextToken_at_default (buf : buffer) (p : Z) :
  p < buf_end buf ->
  has_case_label (byte_at buf p) = false ->
  nextToken_at buf p = Some (Token_range Error p (p + 1), p + 1).
Proof.
  intros Hp Hc. unfold has_case_label in Hc.
  repeat match type of Hc with
  | _ || _ = false => apply orb_false_iff in Hc; let H := fresh "Hc" in destruct Hc as [Hc H]
  end.
  unfold nextToken_at. cbv zeta.
  replace (p >=? buf_end buf) with false by lia.
  unfold isWhitespaceASCII in Hc. unfold word_start in *.
  use_tests. reflexivity.
Qed.

(** X13: a byte that has no case label in the switch is an [Error] token of
    one byte, and the cursor moves past it; every byte outside ASCII (128 and
    above) is such a byte when a token begins at it. *)
Theorem byte_without_case_label_is_Error (buf : buffer) (p : Z) :
  0 <= p < buf_end buf ->
  has_case_label (byte_at buf p) = false
  \/ (128 <= N_of_ascii (byte_at buf p))%N ->
  nextToken (mkLexer buf p)
  = Some (Token_range Error p (p + 1), mkLexer buf (p + 1)).
Proof.
  intros Hp Hc. rewrite nextToken_mk, nextToken_at_default; [reflexivity|lia|].
  destruct Hc as [Hc|Hc]; [exact Hc|apply non_ascii_has_no_case_label, Hc].
Qed.

Lemma byte_without_case_label_is_Error_witness :
  nextToken (mkLexer (list_ascii_of_string "a # b") 2)
  = Some (Token_range Error 2 (2 + 1), mkLexer (list_ascii_of_string "a # b") (2 + 1)).
Proof.
  apply (byte_without_case_label_is_Error (list_ascii_of_string "a # b") 2);
    [vm_compute; split; [discriminate|reflexivity] | left; reflexivity].
Defined.

(** ** The token stream *)

Lemma TokenType_eqb_EndOfStream (ty : TokenType) :
  TokenType_eqb ty EndOfStream = true <-> ty = EndOfStream.
Proof. destruct ty; simpl; split; intros H; reflexivity || discriminate H. Qed.

Lemma tokens_step (n : nat) (lx : Lexer) (t : Token) (lx' : Lexer) :
  nextToken lx = Some (t, lx') ->
  tokens (S n) lx
  = t :: (if TokenType_eqb (type t) EndOfStream then [] else tokens n lx').
Proof. intros H. simpl. rewrite H. reflexivity. Qed.

Lemma lexeme_then_rest (buf : buffer) (t : Token) :
  0 <= begin t <= end_ t -> end_ t <= buf_end buf ->
  (lexeme buf t ++ skipn (Z.to_nat (end_ t)) buf)%list = skipn (Z.to_nat (begin t)) buf.
Proof.
  intros Hb He. unfold lexeme, size.
  replace (Z.to_nat (end_ t)) with (Z.to_nat (end_ t - begin t) + Z.to_nat (begin t))%nat
    by lia.
  rewrite <- skipn_skipn. apply firstn_skipn.
Qed.

Lemma covers_from_concat (buf : buffer) :
  forall (ts : list Token) (p : Z),
    0 <= p <= buf_end buf ->
    covers_from (buf_end buf) p ts ->
    List.concat (map (lexeme buf) ts) = skipn (Z.to_nat p) buf.
Proof.
  induction ts as [|t ts IH]; intros p Hp Hc; [destruct Hc|].
  simpl in Hc. destruct ts as [|t2 ts].
  - destruct Hc as (_ & Hpe & Hb & He). simpl. rewrite app_nil_r.
    unfold lexeme, size. rewrite Hb, He, Hpe.
    replace (Z.to_nat (buf_end buf - buf_end buf)) with 0%nat by lia.
    simpl. symmetry. apply skipn_all2. unfold buf_end. lia.
  - destruct Hc as (_ & Hb & Hle & Hrest).
    assert (Hend : end_ t <= buf_end buf).
    { destruct (Z.le_gt_cases (end_ t) (buf_end buf)) as [H|H]; [exact H|].
      exfalso. clear IH. revert Hrest. generalize (end_ t) H. clear.
      revert t2. induction ts as [|t3 ts IH]; intros t2 q Hq Hc; simpl in Hc.
      - lia.
      - destruct Hc as (_ & Hb & Hle & Hrest). apply (IH t3 (end_ t2)); [lia|exact Hrest]. }
    change (List.concat (map (lexeme buf) (t :: t2 :: ts)))
      with (lexeme buf t ++ List.concat (map (lexeme buf) (t2 :: ts)))%list.
    rewrite (IH (end_ t) ltac:(lia) Hrest).
    rewrite <- Hb. apply lexeme_then_rest; lia.
Qed.

Lemma tokens_cover (n : nat) :
  forall lx : Lexer,
    0 <= pos lx <= Lexer_end lx ->
    In EndOfStream (map type (tokens n lx)) ->
    (forall t, In t (tokens n lx) ->
       type t <> ErrorWordWithoutWhitespace
       /\ type t <> ErrorMultilineCommentIsNotClosed) ->
    covers_from (Lexer_end lx) (pos lx) (tokens n lx).
Proof.
  induction n as [|n IH]; intros lx Hp Hin Hgood; [destruct Hin|].
  destruct (nextToken_total lx (proj1 Hp)) as (t & lx' & Hcall).
  rewrite (tokens_step n lx t lx' Hcall) in *.
  pose proof Hcall as Hcall'. apply nextToken_inv in Hcall'.
  destruct Hcall' as [Hat Hinput].
  pose proof (nextToken_at_inv _ _ _ _ (proj1 Hp) Hat) as Hshape.
  unfold Lexer_end in *.
  destruct (TokenType_eqb (type t) EndOfStream) eqn:Heos.
  - apply TokenType_eqb_EndOfStream in Heos.
    unfold token_shape in Hshape. rewrite Heos in Hshape. simpl.
    repeat split; try assumption; lia.
  - assert (Hne : type t <> EndOfStream).
    { intros E. apply TokenType_eqb_EndOfStream in E. rewrite E in Heos. discriminate. }
    destruct (Hgood t (or_introl eq_refl)) as [Hg1 Hg2].
    destruct (token_ends_at_cursor _ _ _ _ (proj1 Hp) Hat Hne Hg1 Hg2) as (Hb & He & Hlt).
    assert (Htail : covers_from (buf_end (input lx')) (pos lx') (tokens n lx')).
    { apply IH.
      - rewrite Hinput. lia.
      - simpl in Hin. destruct Hin as [Hin|Hin]; [destruct (Hne Hin)|exact Hin].
      - intros t2 Ht2. apply Hgood. right. exact Ht2. }
    rewrite Hinput in Htail. rewrite <- He in Htail.
    simpl. destruct (tokens n lx') as [|t2 ts] eqn:Hts; [destruct Htail|].
    repeat split; try assumption; lia.
Qed.

(** X14: coverage, for the streams it holds for: when a run of calls from a
    cursor inside the buffer reaches [EndOfStream] and returns neither
    [ErrorWordWithoutWhitespace] nor [ErrorMultilineCommentIsNotClosed], the
    ranges of its tokens are adjacent, begin at the cursor and end with the
    empty range at the end of the buffer. *)
Theorem tokens_cover_the_buffer (n : nat) (lx : Lexer) :
  0 <= pos lx <= Lexer_end lx ->
  In EndOfStream (map type (tokens n lx)) ->
  (forall t, In t (tokens n lx) ->
     type t <> ErrorWordWithoutWhitespace
     /\ type t <> ErrorMultilineCommentIsNotClosed) ->
  covers_from (Lexer_end lx) (pos lx) (tokens n lx).
Proof. apply tokens_cover. Qed.

Lemma all_tokens_good_dec (ts : list Token) :
  forallb (fun t => negb (TokenType_eqb (type t) ErrorWordWithoutWhitespace)
                    && negb (TokenType_eqb (type t) ErrorMultilineCommentIsNotClosed)) ts
  = true ->
  forall t, In t ts ->
    type t <> ErrorWordWithoutWhitespace
    /\ type t <> ErrorMultilineCommentIsNotClosed.
Proof.
  intros Hall t Hin. rewrite forallb_forall in Hall. specialize (Hall t Hin).
  apply andb_true_iff in Hall. destruct Hall as [H1 H2].
  split; intros E; rewrite E in *; discriminate.
Qed.

Lemma tokens_cover_the_buffer_witness :
  covers_from (Lexer_end (Lexer_new "a || 'b''c'")) 0
    (tokens 6 (Lexer_new "a || 'b''c'")).
Proof.
  apply (tokens_cover_the_buffer 6 (Lexer_new "a || 'b''c'")).
  - vm_compute. split; discriminate.
  - vm_compute. tauto.
  - apply all_tokens_good_dec. reflexivity.
Defined.

(** X15: the text of the tokens, for the same streams: the bytes in the
    ranges of the tokens, put one after the other, are the buffer from the
    cursor on; for a new lexer they are the whole input. *)
Theorem lexemes_give_back_the_input (n : nat) (lx : Lexer) :
  0 <= pos lx <= Lexer_end lx ->
  In EndOfStream (map type (tokens n lx)) ->
  (forall t, In t (tokens n lx) ->
     type t <> ErrorWordWithoutWhitespace
     /\ type t <> ErrorMultilineCommentIsNotClosed) ->
  List.concat (map (lexeme (input lx)) (tokens n lx)) = skipn (Z.to_nat (pos lx)) (input lx).
Proof.
  intros Hp Hin Hgood.
  apply covers_from_concat; [exact Hp|].
  apply tokens_cover; assumption.
Qed.

Lemma lexemes_give_back_the_input_witness :
  List.concat (map (lexeme (list_ascii_of_string "x -- c")) (tokens 4 (Lexer_new "x -- c")))
  = list_ascii_of_string "x -- c".
Proof.
  apply (lexemes_give_back_the_input 4 (Lexer_new "x -- c")).
  - vm_compute. split; discriminate.
  - vm_compute. tauto.
  - apply all_tokens_good_dec. reflexivity.
Defined.

Lemma tokens_end_or_stick (k : nat) :
  forall lx : Lexer,
    0 <= pos lx <= Lexer_end lx ->
    (Z.to_nat (Lexer_end lx - pos lx) <= k)%nat ->
    In EndOfStream (map type (tokens (S k) lx))
    \/ In ErrorWordWithoutWhitespace (map type (tokens (S k) lx)).
Proof.
  induction k as [|k IH]; intros lx Hp Hk;
    destruct (nextToken_total lx (proj1 Hp)) as (t & lx' & Hcall);
    rewrite (tokens_step _ lx t lx' Hcall);
    pose proof Hcall as Hcall'; apply nextToken_inv in Hcall';
    destruct Hcall' as [Hat Hinput];
    pose proof (nextToken_at_inv _ _ _ _ (proj1 Hp) Hat) as Hshape;
    unfold Lexer_end in *; unfold token_shape in Hshape.
  - left. left. destruct (type t); try reflexivity; lia.
  - destruct (TokenType_eqb (type t) EndOfStream) eqn:Heos.
    { left. left. apply TokenType_eqb_EndOfStream. exact Heos. }
    cbn [map In].
    destruct (type t) eqn:Hty; try discriminate Heos;
      try (right; left; reflexivity);
      (destruct (IH lx') as [Hi|Hi];
       [rewrite Hinput; lia | rewrite Hinput; lia
       | left; right; exact Hi | right; right; exact Hi]).
Qed.

(** X16: how long a stream can be: from a cursor inside a buffer with [k]
    bytes left, the first [k + 1] calls reach [EndOfStream] unless one of them
    returns [ErrorWordWithoutWhitespace]; no other token keeps the lexer from
    reaching the end. *)
Theorem stream_ends_unless_word_error (lx : Lexer) :
  0 <= pos lx <= Lexer_end lx ->
  let ts := tokens (S (Z.to_nat (Lexer_end lx - pos lx))) lx in
  In EndOfStream (map type ts) \/ In ErrorWordWithoutWhitespace (map type ts).
Proof.
  intros Hp. apply tokens_end_or_stick; [exact Hp|lia].
Qed.

Lemma stream_ends_unless_word_error_witness :
  In EndOfStream (map type (tokens 5 (Lexer_new "/*ab")))
  \/ In ErrorWordWithoutWhitespace (map type (tokens 5 (Lexer_new "/*ab"))).
Proof.
  apply (stream_ends_unless_word_error (Lexer_new "/*ab")).
  vm_compute. split; discriminate.
Defined.

(** X17: [ErrorWordWithoutWhitespace] is returned exactly at a letter or an
    underscore that stands right after a letter, a digit or an underscore; the
    token is that one byte, and the lexer is left as it was, so that every
    later call returns the same token again. *)
Theorem word_error_exactly_after_a_word_character (lx : Lexer) (t : Token) (lx' : Lexer) :
  0 <= pos lx < Lexer_end lx ->
  nextToken lx = Some (t, lx') ->
  (type t = ErrorWordWithoutWhitespace
   <-> word_start (byte_at (input lx) (pos lx)) = true
       /\ 0 < pos lx
       /\ isWordCharASCII (byte_at (input lx) (pos lx - 1)) = true)
  /\ (type t = ErrorWordWithoutWhitespace ->
      t = Token_sized ErrorWordWithoutWhitespace (pos lx) 1
      /\ lx' = lx
      /\ forall n, tokens n lx = repeat t n).
Proof.
  intros Hp H. pose proof H as Hcall.
  apply nextToken_inv in H. destruct H as [H Hin]. unfold Lexer_end in Hp.
  assert (Hiff : type t = ErrorWordWithoutWhitespace
                 -> word_start (byte_at (input lx) (pos lx)) = true
                    /\ 0 < pos lx
                    /\ isWordCharASCII (byte_at (input lx) (pos lx - 1)) = true
                    /\ t = Token_sized ErrorWordWithoutWhitespace (pos lx) 1
                    /\ pos lx' = pos lx).
  { intros Ht.
    assert (Hne : type t <> EndOfStream) by (rewrite Ht; discriminate).
    destruct (nextToken_at_first_byte _ _ _ _ (proj1 Hp) H Hne) as [Hlt Hfirst].
    rewrite Ht in Hfirst. simpl in Hfirst.
    rewrite (nextToken_at_word_start _ _ Hlt Hfirst) in H.
    destruct ((pos lx >? 0) && isWordCharASCII (byte_at (input lx) (pos lx - 1)))
      eqn:Hprev; inversion H as [[Htok Hpos]]; clear H.
    - apply andb_true_iff in Hprev. destruct Hprev as [Hgt Hw].
      repeat split; try assumption; try reflexivity; lia.
    - rewrite <- Htok in Ht. discriminate. }
  split; [split|].
  - intros Ht. destruct (Hiff Ht) as (A & B & C & _). auto.
  - intros (Hw & Hgt & Hprev).
    rewrite (nextToken_at_word_start _ _ (proj2 Hp) Hw) in H.
    replace (pos lx >? 0) with true in H by lia. rewrite Hprev in H.
    inversion H; subst. reflexivity.
  - intros Ht. destruct (Hiff Ht) as (_ & _ & _ & Htok & Hpos).
    assert (Hlx : lx' = lx).
    { destruct lx as [b q], lx' as [b' q']; simpl in *. subst. reflexivity. }
    split; [exact Htok|]. split; [exact Hlx|].
    rewrite Hlx in Hcall.
    assert (Hnot : TokenType_eqb (type t) EndOfStream = false) by (rewrite Ht; reflexivity).
    induction n as [|n IH]; [reflexivity|].
    rewrite (tokens_step n lx t lx Hcall), Hnot, IH. reflexivity.
Qed.

Lemma word_error_exactly_after_a_word_character_witness :
  Token_sized ErrorWordWithoutWhitespace 3 1 = Token_sized ErrorWordWithoutWhitespace 3 1
  /\ mkLexer (list_ascii_of_string "123abc") 3 = mkLexer (list_ascii_of_string "123abc") 3
  /\ forall n, tokens n (mkLexer (list_ascii_of_string "123abc") 3)
               = repeat (Token_sized ErrorWordWithoutWhitespace 3 1) n.
Proof.
  apply (word_error_exactly_after_a_word_character
           (mkLexer (list_ascii_of_string "123abc") 3)
           (Token_sized ErrorWordWithoutWhitespace 3 1)
           (mkLexer (list_ascii_of_string "123abc") 3));
    [vm_compute; split; [discriminate|reflexivity] | reflexivity | reflexivity].
Defined.

(** ** Comments *)

(** X18: a [Comment] token begins with [--], [//] or [/*] and holds these two
    bytes; in the third case it is at least four bytes long and ends with the
    two bytes that close it. *)
Theorem comment_begins_with_its_opening (lx : Lexer) (t : Token) (lx' : Lexer) :
  0 <= pos lx ->
  nextToken lx = Some (t, lx') ->
  type t = Comment ->
  let buf := input lx in
  let c0 := byte_at buf (begin t) in
  let c1 := byte_at buf (begin t + 1) in
  begin t + 2 <= end_ t <= Lexer_end lx
  /\ ((c0 = "-"%char /\ c1 = "-"%char)
      \/ (c0 = "/"%char /\ c1 = "/"%char)
      \/ (c0 = "/"%char /\ c1 = "*"%char
          /\ begin t + 4 <= end_ t /\ close_at buf (end_ t - 2))).
Proof.
  intros Hp H Ht buf c0 c1. subst buf c0 c1.
  apply nextToken_inv in H. destruct H as [H Hin].
  assert (Hne : type t <> EndOfStream) by (rewrite Ht; discriminate).
  destruct (nextToken_at_first_byte _ _ _ _ Hp H Hne) as [Hlt Hfirst].
  rewrite Ht in Hfirst. simpl in Hfirst. unfold Lexer_end.
  revert H. unfold nextToken_at.
  replace (pos lx >=? buf_end (input lx)) with false by lia.
  apply orb_true_iff in Hfirst. destruct Hfirst as [Hc|Hc];
    apply eqb_true in Hc; rewrite Hc; simpl.
  - destruct (_ && _); [intros H; inversion H; subst; discriminate Ht|].
    destruct ((pos lx + 1 <? buf_end (input lx))
              && (byte_at (input lx) (pos lx + 1) =? "-")%char) eqn:Hn;
      [|intros H; inversion H; subst; discriminate Ht].
    apply andb_true_iff in Hn. destruct Hn as [Hlt1 Hn].
    apply Z.ltb_lt in Hlt1. apply eqb_true in Hn.
    destruct (commentUntilEndOfLine_ok (input lx) (pos lx) (pos lx + 1 + 1) ltac:(lia))
      as (q & Hq & Hb).
    rewrite Hq. intros H. inversion H; subst. simpl.
    split; [lia|]. left. split; assumption.
  - destruct ((pos lx + 1 <? buf_end (input lx))
              && ((byte_at (input lx) (pos lx + 1) =? "/")%char
                  || (byte_at (input lx) (pos lx + 1) =? "*")%char)) eqn:Hn;
      [|intros H; inversion H; subst; discriminate Ht].
    apply andb_true_iff in Hn. destruct Hn as [Hlt1 Hn]. apply Z.ltb_lt in Hlt1.
    destruct (byte_at (input lx) (pos lx + 1) =? "/")%char eqn:Hs.
    + apply eqb_true in Hs.
      destruct (commentUntilEndOfLine_ok (input lx) (pos lx) (pos lx + 1 + 1) ltac:(lia))
        as (q & Hq & Hb).
      rewrite Hq. intros H. inversion H; subst. simpl.
      split; [lia|]. right. left. split; assumption.
    + simpl in Hn. apply eqb_true in Hn. unfold multilineComment. intros H.
      destruct (multilineComment_loop_first_close _ _ _ _ _ _ H)
        as [(A & B & C & _)|(A & _)]; [|rewrite A in Ht; discriminate Ht].
      rewrite A. simpl. split; [lia|]. right. right.
      repeat split; try assumption; try lia; apply C.
Qed.

Lemma comment_begins_with_its_opening_witness :
  2 + 2 <= 9 <= 11
  /\ ((byte_at (list_ascii_of_string "1 /* c */ 2") 2 = "-"%char
       /\ byte_at (list_ascii_of_string "1 /* c */ 2") (2 + 1) = "-"%char)
      \/ (byte_at (list_ascii_of_string "1 /* c */ 2") 2 = "/"%char
          /\ byte_at (list_ascii_of_string "1 /* c */ 2") (2 + 1) = "/"%char)
      \/ (byte_at (list_ascii_of_string "1 /* c */ 2") 2 = "/"%char
          /\ byte_at (list_ascii_of_string "1 /* c */ 2") (2 + 1) = "*"%char
          /\ 2 + 4 <= 9
          /\ close_at (list_ascii_of_string "1 /* c */ 2") (9 - 2))).
Proof.
  apply (comment_begins_with_its_opening
           (mkLexer (list_ascii_of_string "1 /* c */ 2") 2)
           (Token_range Comment 2 9)
           (mkLexer (list_ascii_of_string "1 /* c */ 2") 9));
    [simpl; lia | reflexivity | reflexivity].
Defined.
